(** * Outline reconstruction from positioned text fragments

    A shallow embedding of [process_pdfs.py]: the body-style estimator
    ([get_body_text_style]), the title selector and heading classifier
    ([identify_and_classify_headings]), the section partitioner
    ([group_text_into_sections]) and the assembler
    ([generate_outline_from_pdf]), followed by the properties stated about
    them.

    Numbers.  Font sizes and vertical offsets are Python floats; they are
    modelled as exact rationals [Q], compared with [Qle_bool]/[Qeq_bool]
    (numeric equality, as [==] on floats and as dict/set keys).  Page
    numbers and scores are Python ints, modelled as [Z].

    Text.  Python [str] values are modelled as [string] over ASCII: the
    character classes below are the ASCII restrictions of [str.isspace],
    [str.isdigit], [str.isupper], [str.islower]. *)

From Stdlib Require Import List Bool Arith ZArith QArith Lia Lqa.
From Stdlib Require Import Ascii String Permutation Sorted.
From Stdlib Require Import SetoidList SetoidPermutation.
From Stdlib Require Import Numbers.DecimalString.
Import ListNotations.

Local Open Scope string_scope.
Local Open Scope bool_scope.

(* ================================================================= *)
(** ** Python string primitives *)

(** [str.isspace] on one ASCII character: TAB, LF, VT, FF, CR, the four
    separators FS GS RS US, and SPACE.  The same class is [\s] in a [str]
    pattern and the separator class of [str.split()] and [str.strip()]. *)
Definition is_space (c : ascii) : bool :=
  let n := nat_of_ascii c in
  ((9 <=? n) && (n <=? 13) || (28 <=? n) && (n <=? 31) || (n =? 32))%nat.

(** [\d] restricted to ASCII. *)
Definition is_digit (c : ascii) : bool :=
  let n := nat_of_ascii c in ((48 <=? n) && (n <=? 57))%nat.

(** [[A-Z]]. *)
Definition is_upper (c : ascii) : bool :=
  let n := nat_of_ascii c in ((65 <=? n) && (n <=? 90))%nat.

Definition is_lower (c : ascii) : bool :=
  let n := nat_of_ascii c in ((97 <=? n) && (n <=? 122))%nat.

Definition lower_char (c : ascii) : ascii :=
  if is_upper c then ascii_of_nat (nat_of_ascii c + 32) else c.

(** [s.lower()] *)
Fixpoint lower (s : string) : string :=
  match s with
  | EmptyString => EmptyString
  | String c s' => String (lower_char c) (lower s')
  end.

Fixpoint str_forallb (p : ascii -> bool) (s : string) : bool :=
  match s with
  | EmptyString => true
  | String c s' => p c && str_forallb p s'
  end.

Fixpoint str_existsb (p : ascii -> bool) (s : string) : bool :=
  match s with
  | EmptyString => false
  | String c s' => p c || str_existsb p s'
  end.

(** [s.isupper()]: no lowercase cased character and at least one cased
    (hence uppercase) character. *)
Definition isupper (s : string) : bool :=
  negb (str_existsb is_lower s) && str_existsb is_upper s.

(** [not s] for a string. *)
Definition str_empty (s : string) : bool :=
  match s with EmptyString => true | _ => false end.

(** [needle in hay] *)
Fixpoint str_in (needle hay : string) : bool :=
  prefix needle hay ||
  match hay with
  | EmptyString => false
  | String _ hay' => str_in needle hay'
  end.

(** [s.split()]: the maximal runs of non-whitespace characters.  [cur] is
    the run being read. *)
Fixpoint split_from (cur : string) (s : string) : list string :=
  match s with
  | EmptyString => if str_empty cur then [] else [cur]
  | String c s' =>
      if is_space c
      then (if str_empty cur then split_from "" s' else cur :: split_from "" s')
      else split_from (cur ++ String c "") s'
  end.

Definition split (s : string) : list string := split_from "" s.

(** [s.lstrip()], [s.rstrip()], [s.strip()] *)
Fixpoint lstrip (s : string) : string :=
  match s with
  | EmptyString => EmptyString
  | String c s' => if is_space c then lstrip s' else s
  end.

Fixpoint rstrip (s : string) : string :=
  match s with
  | EmptyString => EmptyString
  | String c s' =>
      let r := rstrip s' in
      if is_space c && str_empty r then EmptyString else String c r
  end.

Definition strip (s : string) : string := rstrip (lstrip s).

(** [str(n)] for a natural number, as used by the f-string [f"H{i+1}"]. *)
Definition str_of_nat (n : nat) : string :=
  NilEmpty.string_of_uint (Nat.to_uint n).

(* ================================================================= *)
(** ** Regular expressions and [re.match] *)

(** The fragment of [re] syntax the program uses: character classes,
    concatenation, alternation and the greedy repetitions.  Only the
    success of a match is observed, so the matcher decides whether some
    prefix of the subject belongs to the language. *)
Inductive regex : Type :=
| Void : regex
| Eps : regex
| Class : (ascii -> bool) -> regex
| Cat : regex -> regex -> regex
| Alt : regex -> regex -> regex
| Star : regex -> regex.

Definition Plus (r : regex) : regex := Cat r (Star r).
Definition Opt (r : regex) : regex := Alt r Eps.
Definition Lit (c : ascii) : regex := Class (Ascii.eqb c).

Fixpoint nullable (r : regex) : bool :=
  match r with
  | Void => false
  | Eps => true
  | Class _ => false
  | Cat r1 r2 => nullable r1 && nullable r2
  | Alt r1 r2 => nullable r1 || nullable r2
  | Star _ => true
  end.

Fixpoint deriv (c : ascii) (r : regex) : regex :=
  match r with
  | Void => Void
  | Eps => Void
  | Class p => if p c then Eps else Void
  | Cat r1 r2 =>
      if nullable r1
      then Alt (Cat (deriv c r1) r2) (deriv c r2)
      else Cat (deriv c r1) r2
  | Alt r1 r2 => Alt (deriv c r1) (deriv c r2)
  | Star r1 => Cat (deriv c r1) (Star r1)
  end.

(** [pattern.match(s)] is truthy: a prefix of [s] matches [r]. *)
Fixpoint re_match (r : regex) (s : string) : bool :=
  nullable r ||
  match s with
  | EmptyString => false
  | String c s' => re_match (deriv c r) s'
  end.

(** [re.compile(r"^\s*(\d+(?:\.\d+)*\.?|[A-Z]\.)\s+")].  The anchor [^]
    holds at the position where [match] starts and is left out. *)
Definition heading_pattern : regex :=
  Cat (Star (Class is_space))
      (Cat (Alt (Cat (Plus (Class is_digit))
                     (Cat (Star (Cat (Lit ".") (Plus (Class is_digit))))
                          (Opt (Lit "."))))
                (Cat (Class is_upper) (Lit ".")))
           (Plus (Class is_space))).

(* ================================================================= *)
(** ** Exceptions *)

(** The builtin operations below that can raise return [res]; [Raise]
    propagates through [bind] as an uncaught exception does. *)
Inductive exn : Type := StatisticsError | ValueError | IndexError.

Inductive res (A : Type) : Type :=
| Ok : A -> res A
| Raise : exn -> res A.
Arguments Ok {A} _.
Arguments Raise {A} _.

Definition bind {A B : Type} (m : res A) (k : A -> res B) : res B :=
  match m with
  | Ok a => k a
  | Raise e => Raise e
  end.

Notation "x <- m ;; k" := (bind m (fun x => k))
  (at level 61, m at next level, right associativity).

(* ================================================================= *)
(** ** Python builtins over numbers and lists *)

Definition Qlt_bool (x y : Q) : bool := negb (Qle_bool y x).

(** [sorted(l, key=..., reverse=...)] is a stable sort.  [le x y] says that
    [x] may stand before [y]: [key x <= key y], or [key x >= key y] under
    [reverse=True].  An element is placed before the first element of the
    sorted tail it may precede, so equal keys keep their input order. *)
Fixpoint sorted_insert {A : Type} (le : A -> A -> bool) (x : A) (l : list A)
  : list A :=
  match l with
  | [] => [x]
  | y :: l' => if le x y then x :: l else y :: sorted_insert le x l'
  end.

Fixpoint sorted {A : Type} (le : A -> A -> bool) (l : list A) : list A :=
  match l with
  | [] => []
  | x :: l' => sorted_insert le x (sorted le l')
  end.

(** [max(iterable)]: [ValueError] on an empty iterable; the running maximum
    is replaced only by a strictly greater item. *)
Definition py_max (l : list Q) : res Q :=
  match l with
  | [] => Raise ValueError
  | x :: l' => Ok (fold_left (fun m y => if Qlt_bool m y then y else m) l' x)
  end.

(** [l[i]] *)
Definition py_index {A : Type} (l : list A) (i : nat) : res A :=
  match nth_error l i with
  | Some a => Ok a
  | None => Raise IndexError
  end.

(** A [set] of numbers, in insertion order: adding a member equal to a
    present one leaves the set unchanged. *)
Definition set_add (s : list Q) (x : Q) : list Q :=
  if existsb (Qeq_bool x) s then s else s ++ [x].

Definition py_set (l : list Q) : list Q := fold_left set_add l [].

(** A [dict] keyed by numbers, in insertion order. *)
Fixpoint dict_set {V : Type} (d : list (Q * V)) (k : Q) (v : V)
  : list (Q * V) :=
  match d with
  | [] => [(k, v)]
  | (k', v') :: d' =>
      if Qeq_bool k' k then (k', v) :: d' else (k', v') :: dict_set d' k v
  end.

Fixpoint dict_get {V : Type} (d : list (Q * V)) (k : Q) : option V :=
  match d with
  | [] => None
  | (k', v') :: d' => if Qeq_bool k' k then Some v' else dict_get d' k
  end.

(** [collections.Counter(l)]: a dict from element to number of
    occurrences, keys in order of first occurrence. *)
Fixpoint counter_incr (c : list (Q * nat)) (x : Q) : list (Q * nat) :=
  match c with
  | [] => [(x, 1%nat)]
  | (k, n) :: c' =>
      if Qeq_bool k x then (k, S n) :: c' else (k, n) :: counter_incr c' x
  end.

Definition Counter (l : list Q) : list (Q * nat) :=
  fold_left counter_incr l [].

(** [Counter.most_common(1)]: [heapq.nlargest(1, items, key=count)], the
    first item of greatest count, or [[]] for an empty counter. *)
Definition most_common_1 (c : list (Q * nat)) : list (Q * nat) :=
  match c with
  | [] => []
  | kv :: c' =>
      [fold_left (fun best kv' => if (snd best <? snd kv')%nat then kv' else best)
                 c' kv]
  end.

(** [statistics.mode(data)], Python 3.8 and later: the first mode
    encountered; [StatisticsError] on empty data. *)
Definition statistics_mode (data : list Q) : res Q :=
  match most_common_1 (Counter data) with
  | [] => Raise StatisticsError
  | (k, _) :: _ => Ok k
  end.

(** [statistics.mode(data)] before Python 3.8: [StatisticsError] also when
    several values share the greatest count. *)
Definition statistics_mode_legacy (data : list Q) : res Q :=
  let c := Counter data in
  let maxfreq := fold_left (fun m kv => Nat.max m (snd kv)) c 0%nat in
  match filter (fun kv => (snd kv =? maxfreq)%nat) c with
  | [(k, _)] => Ok k
  | _ => Raise StatisticsError
  end.

(* ================================================================= *)
(** ** Data model *)

(** One entry of [blocks_data]. *)
Record Block : Type := mkBlock {
  text : string;
  font_size : Q;
  font_name : string;
  page : Z;
  y_pos : Q
}.

(** [title_info] when it is not [None]. *)
Record TitleInfo : Type := mkTitleInfo {
  title_text : string;
  title_page : Z
}.

(** One entry of [headings]. *)
Record Heading : Type := mkHeading {
  level : string;
  h_text : string;
  h_page : Z;
  h_y_pos : Q
}.

(** One entry of [sections]. *)
Record Section_ : Type := mkSection {
  heading_text : string;
  heading_level : string;
  s_page : Z;
  content : string
}.

(** One entry of [outline]. *)
Record OutlineEntry : Type := mkOutlineEntry {
  o_level : string;
  o_text : string;
  o_page : Z
}.

(** The dict returned by [generate_outline_from_pdf]. *)
Inductive Outcome : Type :=
| ErrorResult (error : string)
| OutlineResult (title : string) (outline : list OutlineEntry)
                (sections : list Section_).

(** What [page.get_text("dict", flags=11)] yields, as far as the program
    reads it: a span's [bbox] is [(x0, y0, x1, y1)]; a block may lack
    ["lines"] and a line may lack ["spans"]; a span may lack ["text"]. *)
Record Span : Type := mkSpan {
  span_text : option string;
  span_size : Q;
  span_font : string;
  span_bbox : Q * Q * Q * Q
}.

Record Line : Type := mkLine { spans : option (list Span) }.
Record PdfBlock : Type := mkPdfBlock { lines : option (list Line) }.
Record Page : Type := mkPage { page_blocks : list PdfBlock }.
Definition Doc : Type := list Page.

(** Outcome of [fitz.open(str(pdf_path))]: the document, or an exception
    whose [str()] is [e]. *)
Inductive OpenResult : Type :=
| OpenRaises (e : string)
| Opened (doc : Doc).

(** A number or [float('inf')]. *)
Inductive ext (A : Type) : Type :=
| Fin : A -> ext A
| PInf : ext A.
Arguments Fin {A} _.
Arguments PInf {A}.

(* ================================================================= *)
(** ** [extract_text_blocks] *)

(** The body of the innermost loop: the fragment a span contributes, or
    nothing when its stripped text is empty ([continue]). *)
Definition span_fragment (page_num : nat) (span : Span) : list Block :=
  let text := strip (match span_text span with Some t => t | None => "" end) in
  if str_empty text then []
  else
    let '(_, y0, _, _) := span_bbox span in
    [ {| text := text;
         font_size := span_size span;
         font_name := span_font span;
         page := Z.of_nat page_num + 1;
         y_pos := y0 |} ].

Definition line_fragments (page_num : nat) (line : Line) : list Block :=
  flat_map (span_fragment page_num)
           (match spans line with Some l => l | None => [] end).

Definition block_fragments (page_num : nat) (b : PdfBlock) : list Block :=
  flat_map (line_fragments page_num)
           (match lines b with Some l => l | None => [] end).

Fixpoint pages_fragments (page_num : nat) (pages : list Page) : list Block :=
  match pages with
  | [] => []
  | p :: ps =>
      flat_map (block_fragments page_num) (page_blocks p)
      ++ pages_fragments (S page_num) ps
  end.

Definition extract_text_blocks (doc : Doc) (page_limit : option nat)
  : list Block :=
  let pages :=
    match page_limit with
    | None => List.length doc
    | Some k => Nat.min (List.length doc) k
    end in
  pages_fragments 0 (firstn pages doc).

(* ================================================================= *)
(** ** [get_body_text_style] *)

(** The two assignments to [sizes]: the sizes below 20, or all sizes when
    that list is empty ([sizes or [...]]). *)
Definition body_sizes (blocks : list Block) : list Q :=
  let sizes :=
    map font_size (filter (fun b => Qlt_bool (font_size b) 20) blocks) in
  match sizes with
  | [] => map font_size blocks
  | _ :: _ => sizes
  end.

(** [mode] is [statistics.mode]; the [except] clause catches
    [StatisticsError] only. *)
Definition get_body_text_style_with (mode : list Q -> res Q)
  (blocks : list Block) : res (Q * string) :=
  match blocks with
  | [] => Ok (12, "")
  | _ :: _ =>
      let sizes := body_sizes blocks in
      body_size <-
        match mode sizes with
        | Ok m => Ok m
        | Raise StatisticsError =>
            kv <- py_index
                    (sorted (fun x y => (snd y <=? snd x)%nat) (Counter sizes))
                    0 ;;
            Ok (fst kv)
        | Raise e => Raise e
        end ;;
      Ok (body_size, "")
  end.

Definition get_body_text_style : list Block -> res (Q * string) :=
  get_body_text_style_with statistics_mode.

(* ================================================================= *)
(** ** [identify_and_classify_headings] *)

(** The [for b in first_blocks ... break] loop. *)
Fixpoint find_title (max_font : Q) (first_blocks : list Block)
  : option TitleInfo :=
  match first_blocks with
  | [] => None
  | b :: bs =>
      if Qeq_bool (font_size b) max_font
      then Some {| title_text := text b; title_page := 1 |}
      else find_title max_font bs
  end.

(** Title: first page, largest font. *)
Definition select_title (blocks : list Block) : res (option TitleInfo) :=
  let first_blocks := filter (fun b => (page b =? 1)%Z) blocks in
  match first_blocks with
  | [] => Ok None
  | _ :: _ =>
      max_font <- py_max (map font_size first_blocks) ;;
      Ok (find_title max_font first_blocks)
  end.

(** The guard of [continue]:
    [title_info and b["page"] == 1 and text == title_info["text"]]. *)
Definition is_title (title_info : option TitleInfo) (b : Block) : bool :=
  match title_info with
  | None => false
  | Some t => (page b =? 1)%Z && (text b =? title_text t)%string
  end.

(** The score a fragment accumulates in the loop body. *)
Definition heading_score (body_size : Q) (b : Block) : Z :=
  let text := text b in
  let fs := font_size b in
  let fname := lower (font_name b) in
  let score := 0%Z in
  let score := if Qlt_bool (body_size + 1) fs then (score + 2)%Z else score in
  let score := if str_in "bold" fname then (score + 1)%Z else score in
  let score :=
    if re_match heading_pattern text then (score + 5)%Z else score in
  let score :=
    if (List.length (split text) <? 15)%nat then (score + 1)%Z else score in
  let score :=
    if isupper text && (2 <? String.length text)%nat
    then (score + 1)%Z else score in
  score.

(** The candidate loop. *)
Fixpoint collect_candidates (title_info : option TitleInfo) (body_size : Q)
  (blocks : list Block) : list Block :=
  match blocks with
  | [] => []
  | b :: bs =>
      if is_title title_info b
      then collect_candidates title_info body_size bs
      else if (4 <=? heading_score body_size b)%Z
           then b :: collect_candidates title_info body_size bs
           else collect_candidates title_info body_size bs
  end.

(** [enumerate(l)] *)
Definition enumerate {A : Type} (l : list A) : list (nat * A) :=
  combine (seq 0 (List.length l)) l.

(** [{size: f"H{i+1}" for i, size in enumerate(sizes[:3])}] *)
Definition make_style_map (sizes : list Q) : list (Q * string) :=
  fold_left (fun d (ix : nat * Q) =>
               dict_set d (snd ix) ("H" ++ str_of_nat (fst ix + 1)))
            (enumerate (firstn 3 sizes)) [].

(** The loop that builds [headings] from the candidates; [if lvl] fails for
    [None] and for the empty string. *)
Fixpoint level_headings (style_map : list (Q * string))
  (candidates : list Block) : list Heading :=
  match candidates with
  | [] => []
  | b :: bs =>
      match dict_get style_map (font_size b) with
      | Some lvl =>
          if str_empty lvl then level_headings style_map bs
          else {| level := lvl; h_text := text b; h_page := page b;
                  h_y_pos := y_pos b |} :: level_headings style_map bs
      | None => level_headings style_map bs
      end
  end.

(** [(h1["page"], h1["y_pos"]) <= (h2["page"], h2["y_pos"])] on tuples. *)
Definition heading_key_le (h1 h2 : Heading) : bool :=
  (h_page h1 <? h_page h2)%Z
  || ((h_page h1 =? h_page h2)%Z && Qle_bool (h_y_pos h1) (h_y_pos h2)).

(** [sorted({c["font_size"] for c in candidates}, reverse=True)] *)
Definition candidate_sizes (candidates : list Block) : list Q :=
  sorted (fun x y => Qle_bool y x) (py_set (map font_size candidates)).

Definition identify_and_classify_headings (blocks : list Block) (body_size : Q)
  : res (list Heading * option TitleInfo) :=
  title_info <- select_title blocks ;;
  let candidates := collect_candidates title_info body_size blocks in
  match candidates with
  | [] => Ok ([], title_info)
  | _ :: _ =>
      let sizes := candidate_sizes candidates in
      let style_map := make_style_map sizes in
      let headings := level_headings style_map candidates in
      let headings := sorted heading_key_le headings in
      Ok (headings, title_info)
  end.

(* ================================================================= *)
(** ** [group_text_into_sections] *)

Definition Zlt_ext (p : Z) (e : ext Z) : bool :=
  match e with Fin q => (p <? q)%Z | PInf => true end.

Definition Zeq_ext (p : Z) (e : ext Z) : bool :=
  match e with Fin q => (p =? q)%Z | PInf => false end.

Definition Qlt_ext (y : Q) (e : ext Q) : bool :=
  match e with Fin z => Qlt_bool y z | PInf => true end.

(** [any(h['text'] == block['text'] and h['page'] == block['page']
         for h in headings)] *)
Definition is_heading (headings : list Heading) (block : Block) : bool :=
  existsb (fun h => (h_text h =? text block)%string
                    && (h_page h =? page block)%Z) headings.

(** The condition under which the inner loop appends a fragment's text. *)
Definition in_section (start_page : Z) (start_y : Q)
  (end_page : ext Z) (end_y : ext Q)
  (headings : list Heading) (block : Block) : bool :=
  let after_start :=
    (start_page <? page block)%Z
    || ((page block =? start_page)%Z && Qlt_bool start_y (y_pos block)) in
  let before_end :=
    Zlt_ext (page block) end_page
    || (Zeq_ext (page block) end_page && Qlt_ext (y_pos block) end_y) in
  after_start && before_end && negb (is_heading headings block).

(** The inner loop: the list [content]. *)
Fixpoint section_content (start_page : Z) (start_y : Q)
  (end_page : ext Z) (end_y : ext Q)
  (headings : list Heading) (blocks : list Block) : list string :=
  match blocks with
  | [] => []
  | block :: bs =>
      if in_section start_page start_y end_page end_y headings block
      then text block
           :: section_content start_page start_y end_page end_y headings bs
      else section_content start_page start_y end_page end_y headings bs
  end.

Definition newline : string := String (ascii_of_nat 10) EmptyString.

(** The outer loop over [enumerate(headings)], at index [i] with the
    headings [todo] still to visit. *)
Fixpoint sections_from (blocks : list Block) (headings : list Heading)
  (i : nat) (todo : list Heading) : res (list Section_) :=
  match todo with
  | [] => Ok []
  | heading :: todo' =>
      let start_page := h_page heading in
      let start_y := h_y_pos heading in
      end_page <-
        (if (i + 1 <? List.length headings)%nat
         then h <- py_index headings (i + 1) ;; Ok (Fin (h_page h))
         else Ok PInf) ;;
      end_y <-
        (if (i + 1 <? List.length headings)%nat
         then h <- py_index headings (i + 1) ;; Ok (Fin (h_y_pos h))
         else Ok PInf) ;;
      let content :=
        section_content start_page start_y end_page end_y headings blocks in
      rest <- sections_from blocks headings (S i) todo' ;;
      Ok ({| heading_text := h_text heading;
             heading_level := level heading;
             s_page := h_page heading;
             content := String.concat newline content |} :: rest)
  end.

Definition group_text_into_sections (blocks : list Block)
  (headings : list Heading) : res (list Section_) :=
  match headings with
  | [] => Ok []
  | _ :: _ => sections_from blocks headings 0 headings
  end.

(* ================================================================= *)
(** ** [generate_outline_from_pdf] *)

(** The assembler, over the three components it calls.  A component that is
    called and raises makes the whole call raise. *)
Definition generate_outline_with
  (estimator : list Block -> res (Q * string))
  (classifier : list Block -> Q -> res (list Heading * option TitleInfo))
  (partitioner : list Block -> list Heading -> res (list Section_))
  (opened : OpenResult) : res Outcome :=
  match opened with
  | OpenRaises e => Ok (ErrorResult ("Could not open PDF: " ++ e))
  | Opened doc =>
      let blocks := extract_text_blocks doc None in
      match blocks with
      | [] => Ok (OutlineResult "" [] [])
      | _ :: _ =>
          bs <- estimator blocks ;;
          let body_size := fst bs in
          ht <- classifier blocks body_size ;;
          let headings := fst ht in
          let title_info := snd ht in
          let title :=
            match title_info with
            | Some t => title_text t
            | None => "Untitled"
            end in
          let outline :=
            map (fun h => {| o_level := level h; o_text := h_text h;
                             o_page := h_page h |}) headings in
          sections <- partitioner blocks headings ;;
          Ok (OutlineResult title outline sections)
      end
  end.

Definition generate_outline_from_pdf : OpenResult -> res Outcome :=
  generate_outline_with get_body_text_style identify_and_classify_headings
                        group_text_into_sections.

(* ================================================================= *)
(** ** [process_pdfs] *)

(** One entry of [pdf_files]: the stem of the file name and what
    [fitz.open] does on the file.  The directory scan ([glob]), [mkdir] and
    the console output are outside the model. *)
Record PdfFile : Type := mkPdfFile {
  stem : string;
  opens : OpenResult
}.

(** [path.write_text(content)] in the output directory, a map from file
    name to content: the file is created or overwritten. *)
Fixpoint write_text (dir : list (string * string)) (name content : string)
  : list (string * string) :=
  match dir with
  | [] => [(name, content)]
  | (n, c) :: dir' =>
      if (n =? name)%string then (n, content) :: dir'
      else (n, c) :: write_text dir' name content
  end.

Fixpoint read_text (dir : list (string * string)) (name : string)
  : option string :=
  match dir with
  | [] => None
  | (n, c) :: dir' => if (n =? name)%string then Some c else read_text dir' name
  end.

(** The loop over [pdf_files]; [dumps] stands for
    [json.dumps(result, indent=2, ensure_ascii=False)]. *)
Fixpoint process_files (dumps : Outcome -> string)
  (dir : list (string * string)) (pdf_files : list PdfFile)
  : res (list (string * string)) :=
  match pdf_files with
  | [] => Ok dir
  | pdf_file :: rest =>
      result <- generate_outline_from_pdf (opens pdf_file) ;;
      let output_file := stem pdf_file ++ ".json" in
      process_files dumps (write_text dir output_file (dumps result)) rest
  end.

(** [process_pdfs], from the output directory [dir] before the call to the
    output directory after it. *)
Definition process_pdfs (dumps : Outcome -> string)
  (dir : list (string * string)) (pdf_files : list PdfFile)
  : res (list (string * string)) :=
  match pdf_files with
  | [] => Ok dir
  | _ :: _ => process_files dumps dir pdf_files
  end.

(* ================================================================= *)
(** ** Specification vocabulary *)

(** The language of a regular expression. *)
Inductive lang : regex -> string -> Prop :=
| lang_eps : lang Eps ""
| lang_class : forall p c, p c = true -> lang (Class p) (String c "")
| lang_cat : forall r1 r2 s1 s2,
    lang r1 s1 -> lang r2 s2 -> lang (Cat r1 r2) (s1 ++ s2)
| lang_alt_l : forall r1 r2 s, lang r1 s -> lang (Alt r1 r2) s
| lang_alt_r : forall r1 r2 s, lang r2 s -> lang (Alt r1 r2) s
| lang_star_nil : forall r, lang (Star r) ""
| lang_star_cons : forall r s1 s2,
    lang r s1 -> lang (Star r) s2 -> lang (Star r) (s1 ++ s2).

(** [needle] occurs in [hay]. *)
Definition occurs_in (needle hay : string) : Prop :=
  exists pre post, hay = pre ++ needle ++ post.

(** A run of whitespace, possibly empty. *)
Definition all_space (s : string) : Prop := str_forallb is_space s = true.

(** A digit group: one or more digits. *)
Definition digit_group (s : string) : Prop :=
  s <> "" /\ str_forallb is_digit s = true.

(** One or more digit groups separated by dots. *)
Inductive dotted_digits : string -> Prop :=
| dotted_one : forall g, digit_group g -> dotted_digits g
| dotted_more : forall g rest,
    digit_group g -> dotted_digits rest -> dotted_digits (g ++ "." ++ rest).

(** Digit groups separated by dots with an optional trailing dot, or a
    single uppercase letter followed by a dot. *)
Definition enum_label (l : string) : Prop :=
  (exists d, dotted_digits d /\ (l = d \/ l = d ++ "."))
  \/ (exists c, is_upper c = true /\ l = String c ".").

(** The leading enumeration pattern in words: optional leading whitespace,
    the label, then required whitespace. *)
Definition leading_enumeration (text : string) : Prop :=
  exists ws l ws' rest,
    text = ws ++ l ++ ws' ++ rest
    /\ all_space ws /\ enum_label l /\ ws' <> "" /\ all_space ws'.


(** The level of a font size among the candidate sizes sorted descending:
    the largest is H1, the next H2, the next H3, and there is no level
    beyond the third size. *)
Definition level_of (sizes : list Q) (fs : Q) : option string :=
  match sizes with
  | [] => None
  | s1 :: rest =>
      if Qeq_bool s1 fs then Some "H1"
      else match rest with
           | [] => None
           | s2 :: rest' =>
               if Qeq_bool s2 fs then Some "H2"
               else match rest' with
                    | [] => None
                    | s3 :: _ => if Qeq_bool s3 fs then Some "H3" else None
                    end
           end
  end.

(** A candidate projected to [{level, text, page, y_pos}]. *)
Definition heading_of (lvl : string) (b : Block) : Heading :=
  {| level := lvl; h_text := text b; h_page := page b; h_y_pos := y_pos b |}.

(** The surviving candidates with their levels, in candidate order. *)
Definition leveled (sizes : list Q) (candidates : list Block) : list Heading :=
  flat_map (fun b => match level_of sizes (font_size b) with
                     | Some lvl => [heading_of lvl b]
                     | None => []
                     end) candidates.

(** [b] is a source fragment of the heading [h]. *)
Definition source_of (sizes : list Q) (candidates : list Block)
  (h : Heading) (b : Block) : Prop :=
  In b candidates
  /\ level_of sizes (font_size b) = Some (level h)
  /\ h = heading_of (level h) b.

(** Ascending order of [(page, y_pos)]. *)
Definition reading_order_le (h1 h2 : Heading) : Prop :=
  (h_page h1 < h_page h2)%Z
  \/ (h_page h1 = h_page h2 /\ h_y_pos h1 <= h_y_pos h2).

(** The position [(page, y_pos)] of [b] is strictly after that of [h]. *)
Definition strictly_after (b : Block) (h : Heading) : Prop :=
  (h_page h < page b)%Z \/ (page b = h_page h /\ h_y_pos h < y_pos b).

(** The position of [b] is strictly before that of the next heading, or
    before [(+infinity, +infinity)] when there is none. *)
Definition strictly_before (b : Block) (next : option Heading) : Prop :=
  match next with
  | Some h => (page b < h_page h)%Z \/ (page b = h_page h /\ y_pos b < h_y_pos h)
  | None => True
  end.

(** The [(text, page)] pair of [b] is that of some heading. *)
Definition matches_heading (headings : list Heading) (b : Block) : Prop :=
  exists h, In h headings /\ h_text h = text b /\ h_page h = page b.

(** The end bound the section loop computes at index [i]: the next
    heading's coordinate, or infinity for the last heading. *)
Definition end_bound {A : Type} (f : Heading -> A) (headings : list Heading)
  (i : nat) : ext A :=
  match nth_error headings (i + 1) with
  | Some h => Fin (f h)
  | None => PInf
  end.

(** The fragments whose text the inner loop appends for the heading [h] at
    index [i]. *)
Definition section_blocks (blocks : list Block) (headings : list Heading)
  (i : nat) (h : Heading) : list Block :=
  filter (in_section (h_page h) (h_y_pos h)
                     (end_bound h_page headings i)
                     (end_bound h_y_pos headings i) headings)
         blocks.

(** The section the loop builds for the heading [h] at index [i]. *)
Definition section_at (blocks : list Block) (headings : list Heading)
  (i : nat) (h : Heading) : Section_ :=
  {| heading_text := h_text h;
     heading_level := level h;
     s_page := h_page h;
     content :=
       String.concat newline (map text (section_blocks blocks headings i h)) |}.

(** The number of occurrences of [x] in [l]. *)
Definition occurrences (x : Q) (l : list Q) : nat :=
  List.length (filter (Qeq_bool x) l).

(** [r] is the mode of [l] with ties broken by first occurrence: it stands
    in [l] at a place before which every element occurs strictly less often
    and after which no element occurs more often. *)
Definition first_mode (r : Q) (l : list Q) : Prop :=
  exists pre post : list Q,
    l = (pre ++ r :: post)%list
    /\ (forall z, In z pre -> (occurrences z l < occurrences r l)%nat)
    /\ (forall z, In z post -> (occurrences z l <= occurrences r l)%nat).

(** [kv] is the first item of greatest count in the counter [c]. *)
Definition first_max (kv : Q * nat) (c : list (Q * nat)) : Prop :=
  exists pre post : list (Q * nat),
    c = (pre ++ kv :: post)%list
    /\ (forall p, In p pre -> (snd p < snd kv)%nat)
    /\ (forall p, In p post -> (snd p <= snd kv)%nat).

(** The position of [b] is on or after that of [h]. *)
Definition on_or_after (b : Block) (h : Heading) : Prop :=
  (h_page h < page b)%Z \/ (page b = h_page h /\ h_y_pos h <= y_pos b).

(** [b] lies exactly at the position of [h]. *)
Definition same_position (b : Block) (h : Heading) : Prop :=
  page b = h_page h /\ y_pos b == h_y_pos h.

(* ================================================================= *)
(** ** Example documents *)

(** A document whose first page has no text. *)
Definition blank_first_page_doc : Doc :=
  [ {| page_blocks := [] |};
    {| page_blocks :=
         [ {| lines :=
                Some [ {| spans :=
                            Some [ {| span_text := Some " Hello ";
                                      span_size := 12;
                                      span_font := "Helvetica";
                                      span_bbox := (72, 40, 130, 52) |} ] |} ]
           |} ] |} ].

(** The worked example: five fragments on page 1, two of them in a bold
    font [bold], the others in the font [regular]. *)
Definition worked_example (regular bold : string) : list Block :=
  [ {| text := "Intro"; font_size := 14; font_name := regular;
       page := 1; y_pos := 10 |};
    {| text := "1. Background"; font_size := 18; font_name := bold;
       page := 1; y_pos := 50 |};
    {| text := "body text here"; font_size := 12; font_name := regular;
       page := 1; y_pos := 80 |};
    {| text := "1.1 Detail"; font_size := 16; font_name := bold;
       page := 1; y_pos := 120 |};
    {| text := "more body"; font_size := 12; font_name := regular;
       page := 1; y_pos := 150 |} ].

(** Candidates of four distinct sizes on two pages, out of reading order,
    after a title. *)
Definition four_sizes_blocks : list Block :=
  [ {| text := "Handbook"; font_size := 30; font_name := "Serif";
       page := 1; y_pos := 20 |};
    {| text := "B. Second part"; font_size := 14; font_name := "Serif";
       page := 2; y_pos := 100 |};
    {| text := "1.2 Small print"; font_size := 11; font_name := "Serif";
       page := 1; y_pos := 300 |};
    {| text := "A. First part"; font_size := 20; font_name := "Serif";
       page := 1; y_pos := 50 |};
    {| text := "1.1 Details"; font_size := 12; font_name := "Serif";
       page := 1; y_pos := 200 |};
    {| text := "plain text"; font_size := 10; font_name := "Serif";
       page := 1; y_pos := 220 |};
    {| text := "more plain text"; font_size := 10; font_name := "Serif";
       page := 2; y_pos := 120 |} ].

(** A page whose heading shares its line with another span. *)
Definition same_line_blocks : list Block :=
  [ {| text := "Annual Report"; font_size := 24; font_name := "Helvetica";
       page := 1; y_pos := 10 |};
    {| text := "1. Intro"; font_size := 18; font_name := "Helvetica-Bold";
       page := 1; y_pos := 50 |};
    {| text := "(draft)"; font_size := 12; font_name := "Helvetica";
       page := 1; y_pos := 50 |};
    {| text := "body text"; font_size := 12; font_name := "Helvetica";
       page := 1; y_pos := 80 |} ].

(* ================================================================= *)
(** * Properties *)

(** ** Evaluation checks *)

Example heading_pattern_numbered : re_match heading_pattern "1. Background" = true.
Proof. reflexivity. Qed.
Example heading_pattern_dotted : re_match heading_pattern "1.1 Detail" = true.
Proof. reflexivity. Qed.
Example heading_pattern_letter : re_match heading_pattern "A. Appendix" = true.
Proof. reflexivity. Qed.
Example heading_pattern_plain : re_match heading_pattern "Intro" = false.
Proof. reflexivity. Qed.
Example heading_pattern_no_space : re_match heading_pattern "1.x" = false.
Proof. reflexivity. Qed.
Example heading_pattern_end_of_text : re_match heading_pattern "12.3.4." = false.
Proof. reflexivity. Qed.
Example split_words : split "  a bc  d " = ["a"; "bc"; "d"].
Proof. reflexivity. Qed.
Example strip_both_ends : strip "  a bc  d " = "a bc  d".
Proof. reflexivity. Qed.
Example lower_font_name : lower "Helvetica-BOLD" = "helvetica-bold".
Proof. reflexivity. Qed.
Example level_label : ("H" ++ str_of_nat 3) = "H3".
Proof. reflexivity. Qed.


(* ================================================================= *)
(** ** Strings *)

Lemma str_app_nil_r (s : string) : s ++ "" = s.
Proof. induction s as [|c s IH]; simpl; [reflexivity | now rewrite IH]. Qed.

Lemma str_app_assoc (s1 s2 s3 : string) : (s1 ++ s2) ++ s3 = s1 ++ s2 ++ s3.
Proof. induction s1 as [|c s1 IH]; simpl; [reflexivity | now rewrite IH]. Qed.

Lemma str_app_eq_nil (s1 s2 : string) : s1 ++ s2 = "" -> s1 = "" /\ s2 = "".
Proof. destruct s1; simpl; [auto | discriminate]. Qed.

Lemma str_forallb_app (p : ascii -> bool) (s1 s2 : string) :
  str_forallb p (s1 ++ s2) = str_forallb p s1 && str_forallb p s2.
Proof.
  induction s1 as [|c s1 IH]; simpl; [reflexivity|].
  now rewrite IH, andb_assoc.
Qed.



(* ================================================================= *)
(** ** The matcher decides prefix membership *)

Lemma nullable_lang (r : regex) : nullable r = true <-> lang r "".
Proof.
  induction r; simpl.
  - split; [discriminate | inversion 1].
  - split; [constructor | reflexivity].
  - split; [discriminate | inversion 1].
  - rewrite andb_true_iff, IHr1, IHr2. split.
    + intros [H1 H2]. change "" with ("" ++ ""). now constructor.
    + inversion 1; subst.
      match goal with H : _ ++ _ = "" |- _ =>
        apply str_app_eq_nil in H; destruct H; subst end.
      auto.
  - rewrite orb_true_iff, IHr1, IHr2. split.
    + intros [H|H]; [now apply lang_alt_l | now apply lang_alt_r].
    + inversion 1; subst; auto.
  - split; [constructor | reflexivity].
Qed.

Lemma lang_star_head (r : regex) (c : ascii) (s : string) :
  lang (Star r) (String c s) ->
  exists s1 s2, s = s1 ++ s2 /\ lang r (String c s1) /\ lang (Star r) s2.
Proof.
  intros H. remember (Star r) as r' eqn:Er. remember (String c s) as t eqn:Et.
  induction H; try discriminate.
  injection Er as Er; subst r0. destruct s1 as [|d s1]; simpl in Et.
  - auto.
  - injection Et as Hc Hs. subst d s. eauto.
Qed.

Lemma deriv_lang (r : regex) (c : ascii) (s : string) :
  lang (deriv c r) s <-> lang r (String c s).
Proof.
  revert s; induction r; intros s; simpl.
  - split; inversion 1.
  - split; inversion 1.
  - destruct (b c) eqn:Hb; split; inversion 1; subst.
    + now constructor.
    + constructor.
    + congruence.
  - assert (Hcat : lang (Cat (deriv c r1) r2) s <->
                   exists s1 s2, s = s1 ++ s2 /\ lang r1 (String c s1) /\ lang r2 s2).
    { split.
      - inversion 1; subst. do 2 eexists; split; [reflexivity|].
        split; [now apply IHr1 | assumption].
      - intros [s1 [s2 [-> [H1 H2]]]]. constructor; [now apply IHr1 | assumption]. }
    assert (Hsplit : lang (Cat r1 r2) (String c s) <->
                     (exists s1 s2, s = s1 ++ s2 /\ lang r1 (String c s1) /\ lang r2 s2)
                     \/ (lang r1 "" /\ lang r2 (String c s))).
    { split.
      - intros H. remember (Cat r1 r2) as r' eqn:Er.
        remember (String c s) as t eqn:Et.
        destruct H; try discriminate. injection Er as E1 E2; subst r0 r3.
        destruct s1 as [|d s1]; simpl in Et.
        + right. subst. auto.
        + left. injection Et as Hc Hs. subst d s. eauto.
      - intros [[s1 [s2 [-> [H1 H2]]]]|[H1 H2]].
        + change (String c (s1 ++ s2)) with (String c s1 ++ s2). now constructor.
        + change (String c s) with ("" ++ String c s). now constructor. }
    rewrite Hsplit. destruct (nullable r1) eqn:Hn.
    + apply nullable_lang in Hn. split.
      * inversion 1; subst; [left; now apply Hcat | right; split; [assumption | now apply IHr2]].
      * intros [H|[_ H]]; [apply lang_alt_l; now apply Hcat | apply lang_alt_r; now apply IHr2].
    + rewrite Hcat. split; [auto|]. intros [H|[H _]]; [assumption|].
      apply nullable_lang in H. congruence.
  - split.
    + inversion 1; subst; [apply lang_alt_l; now apply IHr1 | apply lang_alt_r; now apply IHr2].
    + inversion 1; subst; [apply lang_alt_l; now apply IHr1 | apply lang_alt_r; now apply IHr2].
  - split.
    + inversion 1; subst.
      change (String c (s1 ++ s2)) with (String c s1 ++ s2).
      constructor; [now apply IHr | assumption].
    + intros H. apply lang_star_head in H. destruct H as [s1 [s2 [-> [H1 H2]]]].
      constructor; [now apply IHr | assumption].
Qed.

Lemma re_match_prefix (r : regex) (s : string) :
  re_match r s = true <-> exists p q, s = p ++ q /\ lang r p.
Proof.
  revert r; induction s as [|c s IH]; intros r; cbn [re_match].
  - rewrite orb_false_r, nullable_lang. split.
    + intros H. exists "", "". auto.
    + intros [p [q [Hpq H]]]. symmetry in Hpq.
      apply str_app_eq_nil in Hpq. destruct Hpq; now subst.
  - rewrite orb_true_iff, nullable_lang, IH. split.
    + intros [H|[p [q [-> H]]]].
      * exists "", (String c s). auto.
      * exists (String c p), q. split; [reflexivity | now apply deriv_lang].
    + intros [p [q [Hpq H]]]. destruct p as [|d p]; simpl in Hpq.
      * now left.
      * injection Hpq as -> ->. right. exists p, q.
        split; [reflexivity | now apply deriv_lang].
Qed.

(* ================================================================= *)
(** ** The language of [heading_pattern] *)

Lemma lang_class_inv (p : ascii -> bool) (s : string) :
  lang (Class p) s <-> exists c, p c = true /\ s = String c "".
Proof.
  split.
  - inversion 1; subst; eauto.
  - intros [c [Hc ->]]. now constructor.
Qed.

Lemma lang_cat_inv (r1 r2 : regex) (s : string) :
  lang (Cat r1 r2) s <-> exists s1 s2, s = s1 ++ s2 /\ lang r1 s1 /\ lang r2 s2.
Proof.
  split.
  - inversion 1; subst; eauto.
  - intros [s1 [s2 [-> [H1 H2]]]]. now constructor.
Qed.

Lemma lang_alt_inv (r1 r2 : regex) (s : string) :
  lang (Alt r1 r2) s <-> lang r1 s \/ lang r2 s.
Proof.
  split.
  - inversion 1; subst; auto.
  - intros [H|H]; [now apply lang_alt_l | now apply lang_alt_r].
Qed.

Lemma lang_eps_inv (s : string) : lang Eps s <-> s = "".
Proof. split; [now inversion 1 | intros ->; constructor]. Qed.

Lemma lang_lit (c : ascii) (s : string) : lang (Lit c) s <-> s = String c "".
Proof.
  unfold Lit. rewrite lang_class_inv. split.
  - intros [d [Hd ->]]. apply Ascii.eqb_eq in Hd. now subst.
  - intros ->. exists c. split; [apply Ascii.eqb_refl | reflexivity].
Qed.

Lemma lang_opt (r : regex) (s : string) : lang (Opt r) s <-> lang r s \/ s = "".
Proof. unfold Opt. now rewrite lang_alt_inv, lang_eps_inv. Qed.

Lemma lang_star_class (p : ascii -> bool) (s : string) :
  lang (Star (Class p)) s <-> str_forallb p s = true.
Proof.
  split.
  - intros H. remember (Star (Class p)) as r eqn:Er.
    induction H; try discriminate; [reflexivity|].
    injection Er as Er; subst r.
    rewrite str_forallb_app, IHlang2 by reflexivity.
    apply lang_class_inv in H. destruct H as [c [Hc ->]]. simpl. now rewrite Hc.
  - induction s as [|c s IH]; simpl; intros H.
    + constructor.
    + apply andb_true_iff in H. destruct H as [Hc Hs].
      change (String c s) with (String c "" ++ s).
      constructor; [now constructor | auto].
Qed.

Lemma lang_plus_class (p : ascii -> bool) (s : string) :
  lang (Plus (Class p)) s <-> s <> "" /\ str_forallb p s = true.
Proof.
  unfold Plus. rewrite lang_cat_inv. split.
  - intros [s1 [s2 [-> [H1 H2]]]].
    apply lang_class_inv in H1. destruct H1 as [c [Hc ->]].
    apply lang_star_class in H2. simpl. rewrite Hc, H2. split; [discriminate | reflexivity].
  - intros [Hne H]. destruct s as [|c s]; [congruence|].
    simpl in H. apply andb_true_iff in H. destruct H as [Hc Hs].
    exists (String c ""), s. split; [reflexivity|].
    split; [now constructor | now apply lang_star_class].
Qed.

(** [(?:\.\d+)*] is empty or a dot followed by dotted digit groups. *)
Lemma lang_more_groups (t : string) :
  lang (Star (Cat (Lit ".") (Plus (Class is_digit)))) t <->
  t = "" \/ exists rest, t = "." ++ rest /\ dotted_digits rest.
Proof.
  split.
  - intros H. remember (Star (Cat (Lit ".") (Plus (Class is_digit)))) as r eqn:Er.
    induction H; try discriminate; [now left|].
    injection Er as Er; subst r. right.
    apply lang_cat_inv in H. destruct H as [d [g [-> [Hd Hg]]]].
    apply lang_lit in Hd. subst d. apply lang_plus_class in Hg.
    destruct (IHlang2 eq_refl) as [->|[rest [-> Hrest]]].
    + exists g. rewrite str_app_nil_r. split; [reflexivity | now constructor].
    + exists (g ++ "." ++ rest). rewrite !str_app_assoc.
      split; [reflexivity | now constructor].
  - intros [->|[rest [-> Hrest]]]; [constructor|].
    induction Hrest as [g Hg | g rest Hg Hrest IH].
    + rewrite <- (str_app_nil_r ("." ++ g)). constructor; [|constructor].
      apply lang_cat_inv. exists ".", g.
      split; [reflexivity|]. split; [now apply lang_lit | now apply lang_plus_class].
    + replace ("." ++ g ++ "." ++ rest) with (("." ++ g) ++ "." ++ rest)
        by now rewrite str_app_assoc.
      constructor; [|exact IH].
      apply lang_cat_inv. exists ".", g.
      split; [reflexivity|]. split; [now apply lang_lit | now apply lang_plus_class].
Qed.

Lemma lang_dotted (s : string) :
  lang (Cat (Plus (Class is_digit))
            (Star (Cat (Lit ".") (Plus (Class is_digit))))) s
  <-> dotted_digits s.
Proof.
  rewrite lang_cat_inv. split.
  - intros [g [t [-> [Hg Ht]]]]. apply lang_plus_class in Hg.
    apply lang_more_groups in Ht. destruct Ht as [->|[rest [-> Hrest]]].
    + rewrite str_app_nil_r. now constructor.
    + now constructor.
  - intros H. destruct H as [g Hg | g rest Hg Hrest].
    + exists g, "". rewrite str_app_nil_r. split; [reflexivity|].
      split; [now apply lang_plus_class | constructor].
    + exists g, ("." ++ rest). split; [reflexivity|].
      split; [now apply lang_plus_class|].
      apply lang_more_groups. right. eauto.
Qed.

Lemma lang_enum_label (l : string) :
  lang (Alt (Cat (Plus (Class is_digit))
                 (Cat (Star (Cat (Lit ".") (Plus (Class is_digit))))
                      (Opt (Lit "."))))
            (Cat (Class is_upper) (Lit "."))) l
  <-> enum_label l.
Proof.
  unfold enum_label. rewrite lang_alt_inv. apply Morphisms_Prop.or_iff_morphism.
  - split.
    + intros H. apply lang_cat_inv in H. destruct H as [g [t [-> [Hg H]]]].
      apply lang_cat_inv in H. destruct H as [m [o [-> [Hm Ho]]]].
      exists (g ++ m). split.
      * apply lang_dotted. now constructor.
      * apply lang_opt in Ho. destruct Ho as [Ho| ->].
        -- apply lang_lit in Ho. subst o. right. now rewrite str_app_assoc.
        -- left. now rewrite str_app_nil_r.
    + intros [d [Hd Hl]]. apply lang_dotted in Hd.
      apply lang_cat_inv in Hd. destruct Hd as [g [m [-> [Hg Hm]]]].
      apply lang_cat_inv. destruct Hl as [-> | ->].
      * exists g, m. split; [reflexivity|]. split; [assumption|].
        rewrite <- (str_app_nil_r m). constructor; [assumption|].
        apply lang_opt. now right.
      * exists g, (m ++ "."). split; [now rewrite str_app_assoc|].
        split; [assumption|]. constructor; [assumption|].
        apply lang_opt. left. now apply lang_lit.
  - rewrite lang_cat_inv. split.
    + intros [u [d [-> [Hu Hd]]]]. apply lang_class_inv in Hu.
      destruct Hu as [c [Hc ->]]. apply lang_lit in Hd. subst d. eauto.
    + intros [c [Hc ->]]. exists (String c ""), ".".
      split; [reflexivity|]. split; [now constructor | now apply lang_lit].
Qed.

Lemma heading_pattern_lang (p : string) :
  lang heading_pattern p <->
  exists ws l ws',
    p = ws ++ l ++ ws'
    /\ all_space ws /\ enum_label l /\ ws' <> "" /\ all_space ws'.
Proof.
  unfold heading_pattern, all_space. rewrite lang_cat_inv. split.
  - intros [ws [t [-> [Hws Ht]]]]. apply lang_cat_inv in Ht.
    destruct Ht as [l [ws' [-> [Hl Hws']]]].
    apply lang_star_class in Hws. apply lang_enum_label in Hl.
    apply lang_plus_class in Hws'. destruct Hws' as [Hne Hws'].
    exists ws, l, ws'. auto.
  - intros [ws [l [ws' [-> [Hws [Hl [Hne Hws']]]]]]].
    exists ws, (l ++ ws'). split; [reflexivity|].
    split; [now apply lang_star_class|].
    apply lang_cat_inv. exists l, ws'. split; [reflexivity|].
    split; [now apply lang_enum_label | now apply lang_plus_class].
Qed.

(** [heading_pattern.match(text)] succeeds exactly on the texts that start
    with an enumeration label. *)
Lemma heading_pattern_match (text : string) :
  re_match heading_pattern text = true <-> leading_enumeration text.
Proof.
  rewrite re_match_prefix. unfold leading_enumeration. split.
  - intros [p [q [-> Hp]]]. apply heading_pattern_lang in Hp.
    destruct Hp as [ws [l [ws' [-> H]]]].
    exists ws, l, ws', q. split; [now rewrite !str_app_assoc | exact H].
  - intros [ws [l [ws' [rest [-> H]]]]].
    exists (ws ++ l ++ ws'), rest. split; [now rewrite !str_app_assoc|].
    apply heading_pattern_lang. exists ws, l, ws'. auto.
Qed.

(* ================================================================= *)
(** ** Comparisons *)

Lemma Qlt_bool_iff (x y : Q) : Qlt_bool x y = true <-> x < y.
Proof.
  unfold Qlt_bool. rewrite negb_true_iff. split.
  - intros H. apply Qnot_le_lt. intros Hle.
    apply Qle_bool_iff in Hle. congruence.
  - intros H. destruct (Qle_bool y x) eqn:E; [|reflexivity].
    apply Qle_bool_iff in E. exfalso. now apply (Qlt_not_le x y).
Qed.

Lemma Qlt_bool_false (x y : Q) : Qlt_bool x y = false <-> y <= x.
Proof.
  unfold Qlt_bool. rewrite negb_false_iff. apply Qle_bool_iff.
Qed.

Lemma Qeq_bool_false (x y : Q) : Qeq_bool x y = false <-> ~ x == y.
Proof.
  split.
  - intros H E. apply Qeq_bool_iff in E. congruence.
  - intros H. destruct (Qeq_bool x y) eqn:E; [|reflexivity].
    apply Qeq_bool_iff in E. contradiction.
Qed.


(* ================================================================= *)
(** ** Scoring and candidacy *)

Lemma heading_score_sum (body_size : Q) (b : Block) :
  heading_score body_size b =
  ((if Qlt_bool (body_size + 1) (font_size b) then 2 else 0)
   + (if str_in "bold" (lower (font_name b)) then 1 else 0)
   + (if re_match heading_pattern (text b) then 5 else 0)
   + (if (List.length (split (text b)) <? 15)%nat then 1 else 0)
   + (if isupper (text b) && (2 <? String.length (text b))%nat then 1 else 0))%Z.
Proof.
  unfold heading_score.
  destruct (Qlt_bool _ _), (str_in _ _), (re_match _ _), (_ <? 15)%nat,
    (isupper _ && _); reflexivity.
Qed.

Lemma collect_candidates_filter (title_info : option TitleInfo)
  (body_size : Q) (blocks : list Block) :
  collect_candidates title_info body_size blocks =
  filter (fun b => negb (is_title title_info b)
                   && (4 <=? heading_score body_size b)%Z) blocks.
Proof.
  induction blocks as [|b bs IH]; simpl; [reflexivity|].
  destruct (is_title title_info b); simpl; [exact IH|].
  destruct (4 <=? heading_score body_size b)%Z; now rewrite IH.
Qed.


Lemma In_collect_candidates (title_info : option TitleInfo) (body_size : Q)
  (blocks : list Block) (b : Block) :
  In b (collect_candidates title_info body_size blocks) <->
  In b blocks /\ is_title title_info b = false
  /\ (4 <= heading_score body_size b)%Z.
Proof.
  rewrite collect_candidates_filter, filter_In, andb_true_iff,
    negb_true_iff, Z.leb_le. tauto.
Qed.


(* ================================================================= *)
(** ** [sorted] *)

Section Sorting.
Context {A : Type} (le : A -> A -> bool).

Lemma sorted_insert_perm (x : A) (l : list A) :
  Permutation (sorted_insert le x l) (x :: l).
Proof.
  induction l as [|y l IH]; simpl; [reflexivity|].
  destruct (le x y); [reflexivity|].
  rewrite IH. apply perm_swap.
Qed.

Lemma sorted_perm (l : list A) : Permutation (sorted le l) l.
Proof.
  induction l as [|x l IH]; simpl; [reflexivity|].
  rewrite sorted_insert_perm. now constructor.
Qed.

Lemma sorted_In (l : list A) (x : A) : In x (sorted le l) <-> In x l.
Proof.
  split; apply Permutation_in; [|symmetry]; apply sorted_perm.
Qed.

Lemma sorted_length (l : list A) : List.length (sorted le l) = List.length l.
Proof. apply Permutation_length, sorted_perm. Qed.

Hypothesis le_total : forall x y, le x y = false -> le y x = true.

Lemma sorted_insert_Sorted (x : A) (l : list A) :
  Sorted (fun a b => le a b = true) l ->
  Sorted (fun a b => le a b = true) (sorted_insert le x l).
Proof.
  induction l as [|y l IH]; simpl; intros Hs.
  - repeat constructor.
  - destruct (le x y) eqn:E.
    + constructor; [assumption | now constructor].
    + apply Sorted_inv in Hs. destruct Hs as [Hs Hhd].
      constructor; [auto|].
      destruct l as [|z l]; simpl.
      * constructor. auto.
      * destruct (le x z); constructor; auto.
        now apply HdRel_inv in Hhd.
Qed.

Lemma sorted_Sorted (l : list A) :
  Sorted (fun a b => le a b = true) (sorted le l).
Proof.
  induction l as [|x l IH]; simpl; [constructor|].
  now apply sorted_insert_Sorted.
Qed.

Hypothesis le_trans :
  forall x y z, le x y = true -> le y z = true -> le x z = true.

Lemma sorted_StronglySorted (l : list A) :
  StronglySorted (fun a b => le a b = true) (sorted le l).
Proof.
  apply Sorted_StronglySorted; [|apply sorted_Sorted].
  intros x y z. apply le_trans.
Qed.

(** The first element of the sorted list may precede every element and
    is the first such element of the input. *)
Lemma sorted_insert_head (x : A) (l : list A) :
  hd_error (sorted_insert le x l) =
  match hd_error l with
  | None => Some x
  | Some y => if le x y then Some x else Some y
  end.
Proof.
  destruct l as [|y l]; simpl; [reflexivity|].
  destruct (le x y); reflexivity.
Qed.
End Sorting.

(* ================================================================= *)
(** ** Sets of numbers *)

Lemma existsb_Qeq_InA (x : Q) (s : list Q) :
  existsb (Qeq_bool x) s = true <-> InA Qeq x s.
Proof.
  rewrite existsb_exists, InA_alt. split.
  - intros [y [Hy E]]. apply Qeq_bool_iff in E. eauto.
  - intros [y [E Hy]]. apply Qeq_bool_iff in E. eauto.
Qed.

Lemma set_add_InA (s : list Q) (x y : Q) :
  InA Qeq y (set_add s x) <-> InA Qeq y s \/ y == x.
Proof.
  unfold set_add. destruct (existsb (Qeq_bool x) s) eqn:E.
  - apply existsb_Qeq_InA in E. split; [auto|].
    intros [H|H]; [assumption|]. apply InA_eqA with x; auto with typeclass_instances.
    now symmetry.
  - rewrite InA_app_iff, InA_cons, InA_nil. tauto.
Qed.

Lemma set_add_In (s : list Q) (x y : Q) :
  In y (set_add s x) -> In y s \/ y = x.
Proof.
  unfold set_add. destruct (existsb (Qeq_bool x) s); [auto|].
  rewrite in_app_iff. simpl. intuition.
Qed.

Lemma set_add_NoDupA (s : list Q) (x : Q) :
  NoDupA Qeq s -> NoDupA Qeq (set_add s x).
Proof.
  intros Hs. unfold set_add. destruct (existsb (Qeq_bool x) s) eqn:E; [assumption|].
  apply NoDupA_app; auto with typeclass_instances.
  - apply NoDupA_singleton.
  - intros y Hy Hx. rewrite InA_cons, InA_nil in Hx. destruct Hx as [Hx|[]].
    assert (H : existsb (Qeq_bool x) s = true); [|congruence].
    apply existsb_Qeq_InA. apply InA_eqA with y; auto with typeclass_instances.
Qed.

Lemma fold_set_add_InA (l acc : list Q) (y : Q) :
  InA Qeq y (fold_left set_add l acc) <-> InA Qeq y acc \/ InA Qeq y l.
Proof.
  revert acc; induction l as [|x l IH]; intros acc; simpl.
  - rewrite InA_nil. tauto.
  - rewrite IH, set_add_InA, InA_cons. tauto.
Qed.

Lemma fold_set_add_In (l acc : list Q) (y : Q) :
  In y (fold_left set_add l acc) -> In y acc \/ In y l.
Proof.
  revert acc; induction l as [|x l IH]; intros acc; simpl; [auto|].
  intros H. apply IH in H. destruct H as [H|H]; [|auto].
  apply set_add_In in H. intuition.
Qed.

Lemma fold_set_add_NoDupA (l acc : list Q) :
  NoDupA Qeq acc -> NoDupA Qeq (fold_left set_add l acc).
Proof.
  revert acc; induction l as [|x l IH]; intros acc H; simpl; [assumption|].
  apply IH. now apply set_add_NoDupA.
Qed.

Lemma py_set_InA (l : list Q) (y : Q) : InA Qeq y (py_set l) <-> InA Qeq y l.
Proof. unfold py_set. rewrite fold_set_add_InA, InA_nil. tauto. Qed.

Lemma py_set_In (l : list Q) (y : Q) : In y (py_set l) -> In y l.
Proof.
  intros H. apply fold_set_add_In in H. destruct H as [[]|H]. exact H.
Qed.

Lemma py_set_NoDupA (l : list Q) : NoDupA Qeq (py_set l).
Proof. apply fold_set_add_NoDupA. constructor. Qed.

(* ================================================================= *)
(** ** Candidate sizes and the style map *)

Lemma strictly_descending (l : list Q) :
  StronglySorted (fun a b => Qle_bool b a = true) l ->
  NoDupA Qeq l ->
  StronglySorted (fun a b => b < a) l.
Proof.
  induction 1 as [|x l Hs IH Hall]; intros Hnd; [constructor|].
  inversion Hnd as [|? ? Hx Hl]; subst. constructor; [auto|].
  rewrite Forall_forall in *. intros y Hy.
  specialize (Hall y Hy). apply Qle_bool_iff in Hall.
  apply Qle_lteq in Hall. destruct Hall as [Hlt|Heq]; [assumption|].
  exfalso. apply Hx. apply InA_alt. exists y. split; [now symmetry | assumption].
Qed.

Lemma candidate_sizes_descending (candidates : list Block) :
  StronglySorted (fun a b => b < a) (candidate_sizes candidates).
Proof.
  unfold candidate_sizes. apply strictly_descending.
  - apply sorted_StronglySorted.
    + intros x y H. apply Qle_bool_iff.
      destruct (Qle_bool x y) eqn:E; [now apply Qle_bool_iff|].
      apply Qlt_le_weak. apply Qnot_le_lt. intros Hle.
      apply Qle_bool_iff in Hle. congruence.
    + intros x y z Hxy Hyz. apply Qle_bool_iff in Hxy, Hyz.
      apply Qle_bool_iff. now apply Qle_trans with y.
  - apply PermutationA_preserves_NoDupA
      with (l₁ := py_set (map font_size candidates));
      auto with typeclass_instances.
    + apply Permutation_PermutationA; auto with typeclass_instances.
      symmetry. apply sorted_perm.
    + apply py_set_NoDupA.
Qed.

Lemma candidate_sizes_InA (candidates : list Block) (x : Q) :
  InA Qeq x (candidate_sizes candidates) <->
  InA Qeq x (map font_size candidates).
Proof.
  unfold candidate_sizes. rewrite <- (py_set_InA (map font_size candidates)).
  rewrite !InA_alt.
  split; intros [y [E Hy]]; exists y; split; auto;
    revert Hy; apply sorted_In.
Qed.

Lemma candidate_sizes_In (candidates : list Block) (x : Q) :
  In x (candidate_sizes candidates) ->
  exists b, In b candidates /\ font_size b = x.
Proof.
  unfold candidate_sizes. rewrite sorted_In. intros H.
  apply py_set_In, in_map_iff in H. destruct H as [b [E Hb]]. eauto.
Qed.

Lemma make_style_map_get (sizes : list Q) (fs : Q) :
  StronglySorted (fun a b => b < a) sizes ->
  dict_get (make_style_map sizes) fs = level_of sizes fs.
Proof.
  intros Hs.
  assert (Hne : forall a b, b < a -> Qeq_bool a b = false).
  { intros a b Hlt. apply Qeq_bool_false. intros E. rewrite E in Hlt.
    now apply Qlt_irrefl in Hlt. }
  destruct sizes as [|s1 [|s2 [|s3 rest]]]; try reflexivity.
  - apply StronglySorted_inv in Hs. destruct Hs as [_ H1].
    inversion H1 as [|? ? H12 _]; subst.
    unfold make_style_map, enumerate.
    cbn [firstn List.length seq combine fold_left fst snd dict_set].
    rewrite (Hne _ _ H12). reflexivity.
  - apply StronglySorted_inv in Hs. destruct Hs as [Hs H1].
    inversion H1 as [|? ? H12 H1']; subst.
    inversion H1' as [|? ? H13 _]; subst.
    apply StronglySorted_inv in Hs. destruct Hs as [_ H2].
    inversion H2 as [|? ? H23 _]; subst.
    unfold make_style_map, enumerate.
    cbn [firstn List.length seq combine fold_left fst snd dict_set].
    rewrite (Hne _ _ H12).
    cbn [dict_set]. rewrite (Hne _ _ H13), (Hne _ _ H23). reflexivity.
Qed.

Lemma level_of_cases (sizes : list Q) (fs : Q) (lvl : string) :
  level_of sizes fs = Some lvl -> lvl = "H1" \/ lvl = "H2" \/ lvl = "H3".
Proof.
  unfold level_of. destruct sizes as [|s1 [|s2 [|s3 rest]]];
    repeat match goal with
           | |- context [Qeq_bool ?a ?b] => destruct (Qeq_bool a b)
           end; intros H; inversion H; auto.
Qed.

Lemma level_headings_leveled (sizes : list Q) (candidates : list Block) :
  StronglySorted (fun a b => b < a) sizes ->
  level_headings (make_style_map sizes) candidates = leveled sizes candidates.
Proof.
  intros Hs. unfold leveled.
  induction candidates as [|b bs IH]; simpl; [reflexivity|].
  rewrite make_style_map_get by assumption.
  destruct (level_of sizes (font_size b)) as [lvl|] eqn:E; [|exact IH].
  apply level_of_cases in E. rewrite IH.
  destruct E as [->|[->| ->]]; reflexivity.
Qed.

Lemma In_leveled (sizes : list Q) (candidates : list Block) (h : Heading) :
  In h (leveled sizes candidates) <-> exists b, source_of sizes candidates h b.
Proof.
  unfold leveled, source_of. rewrite in_flat_map. split.
  - intros [b [Hb Hh]]. exists b.
    destruct (level_of sizes (font_size b)) as [lvl|]; [|destruct Hh].
    destruct Hh as [<-|[]]. simpl. auto.
  - intros [b [Hb [Hl Hh]]]. exists b. split; [assumption|].
    rewrite Hl. left. now symmetry.
Qed.

(** Which sizes receive which level. *)
Lemma level_of_rank (sizes : list Q) (fs : Q) :
  StronglySorted (fun a b => b < a) sizes ->
  forall (i : nat) (s : Q),
    nth_error sizes i = Some s -> s == fs ->
    level_of sizes fs =
    if (i <? 3)%nat then Some ("H" ++ str_of_nat (i + 1)) else None.
Proof.
  intros Hs i s Hi E.
  assert (Hne : forall a, a < s \/ s < a -> Qeq_bool a fs = false).
  { intros a Ha. apply Qeq_bool_false. intros E'. rewrite <- E in E'.
    rewrite E' in Ha. destruct Ha as [Ha|Ha]; now apply Qlt_irrefl in Ha. }
  assert (Heq : Qeq_bool s fs = true) by now apply Qeq_bool_iff.
  destruct sizes as [|s1 rest]; [destruct i; discriminate|].
  apply StronglySorted_inv in Hs. destruct Hs as [Hs H1].
  rewrite Forall_forall in H1.
  destruct i as [|i]; simpl in Hi.
  { injection Hi as ->. simpl. now rewrite Heq. }
  assert (Hin : In s rest) by (eapply nth_error_In; eauto).
  cbn [level_of]. rewrite (Hne s1) by (right; auto).
  destruct rest as [|s2 rest]; [destruct i; discriminate|].
  apply StronglySorted_inv in Hs. destruct Hs as [Hs H2].
  rewrite Forall_forall in H2.
  destruct i as [|i]; simpl in Hi.
  { injection Hi as ->. now rewrite Heq. }
  assert (Hin2 : In s rest) by (eapply nth_error_In; eauto).
  rewrite (Hne s2) by (right; auto).
  destruct rest as [|s3 rest]; [destruct i; discriminate|].
  apply StronglySorted_inv in Hs. destruct Hs as [Hs H3].
  rewrite Forall_forall in H3.
  destruct i as [|i]; simpl in Hi.
  { injection Hi as ->. now rewrite Heq. }
  assert (Hin3 : In s rest) by (eapply nth_error_In; eauto).
  rewrite (Hne s3) by (right; auto). reflexivity.
Qed.

Lemma level_of_None (sizes : list Q) (fs : Q) :
  level_of sizes fs = None <-> ~ InA Qeq fs (firstn 3 sizes).
Proof.
  assert (Hc : forall a, Qeq_bool a fs = true <-> fs == a).
  { intros a. rewrite Qeq_bool_iff. split; intros; now symmetry. }
  unfold level_of.
  destruct sizes as [|s1 [|s2 [|s3 rest]]]; cbn [firstn];
    repeat rewrite InA_cons; rewrite InA_nil;
    repeat match goal with
           | |- context [Qeq_bool ?a fs] =>
               let E := fresh "E" in
               destruct (Qeq_bool a fs) eqn:E;
               [apply Hc in E
               |assert (~ fs == a) by (rewrite <- Hc; congruence); clear E]
           end;
    split; try discriminate; try tauto.
Qed.

(* ================================================================= *)
(** ** Reading order *)

Lemma heading_key_le_iff (h1 h2 : Heading) :
  heading_key_le h1 h2 = true <-> reading_order_le h1 h2.
Proof.
  unfold heading_key_le, reading_order_le.
  now rewrite orb_true_iff, andb_true_iff, Z.ltb_lt, Z.eqb_eq, Qle_bool_iff.
Qed.

Lemma heading_key_le_total (h1 h2 : Heading) :
  heading_key_le h1 h2 = false -> heading_key_le h2 h1 = true.
Proof.
  intros H. apply heading_key_le_iff.
  assert (Hn : ~ reading_order_le h1 h2)
    by (rewrite <- heading_key_le_iff; congruence).
  unfold reading_order_le in *.
  destruct (Z.lt_trichotomy (h_page h1) (h_page h2)) as [Hlt|[Heq|Hgt]].
  - exfalso. auto.
  - right. split; [auto|].
    destruct (Qlt_le_dec (h_y_pos h2) (h_y_pos h1)) as [Hy|Hy].
    + now apply Qlt_le_weak.
    + exfalso. auto.
  - now left.
Qed.

Lemma heading_key_le_trans (h1 h2 h3 : Heading) :
  heading_key_le h1 h2 = true -> heading_key_le h2 h3 = true ->
  heading_key_le h1 h3 = true.
Proof.
  rewrite !heading_key_le_iff. unfold reading_order_le.
  intros [H12|[E12 Y12]] [H23|[E23 Y23]].
  - left. lia.
  - left. lia.
  - left. lia.
  - right. split; [lia|]. now apply Qle_trans with (h_y_pos h2).
Qed.

Lemma sorted_headings_order (l : list Heading) :
  StronglySorted reading_order_le (sorted heading_key_le l).
Proof.
  assert (H := sorted_StronglySorted heading_key_le heading_key_le_total
                 heading_key_le_trans l).
  induction H as [|h hs Hs IH Hall]; constructor; [assumption|].
  rewrite Forall_forall in *. intros h' Hh'. now apply heading_key_le_iff, Hall.
Qed.

(* ================================================================= *)
(** ** The classifier's result *)

Lemma select_title_total (blocks : list Block) :
  exists title_info, select_title blocks = Ok title_info.
Proof.
  unfold select_title.
  destruct (filter (fun b => (page b =? 1)%Z) blocks); simpl; eauto.
Qed.

(** The classifier returns, for the title it selects, the levelled
    candidates in reading order. *)
Lemma identify_and_classify_headings_eq (blocks : list Block) (body_size : Q)
  (hs : list Heading) (ti : option TitleInfo) :
  identify_and_classify_headings blocks body_size = Ok (hs, ti) ->
  select_title blocks = Ok ti
  /\ hs = sorted heading_key_le
            (leveled (candidate_sizes (collect_candidates ti body_size blocks))
                     (collect_candidates ti body_size blocks)).
Proof.
  unfold identify_and_classify_headings.
  destruct (select_title blocks) as [ti'|e]; unfold bind; [|discriminate].
  rewrite level_headings_leveled by apply candidate_sizes_descending.
  destruct (collect_candidates ti' body_size blocks) as [|c cs] eqn:Ec;
    intros H; injection H as <- <-; rewrite Ec; split; reflexivity.
Qed.

Lemma identify_and_classify_headings_total (blocks : list Block)
  (body_size : Q) :
  exists hs ti, identify_and_classify_headings blocks body_size = Ok (hs, ti).
Proof.
  unfold identify_and_classify_headings.
  destruct (select_title_total blocks) as [ti ->]. simpl.
  destruct (collect_candidates ti body_size blocks); eauto.
Qed.

(** C2.  The classifier returns headings [hs] for which: the candidate sizes
    are the distinct font sizes of the candidates in strictly descending
    order; the size of rank 0, 1, 2 is mapped to H1, H2, H3 and any other
    size to no level, so a candidate whose size is not among the top three
    is dropped; [hs] is a permutation of the surviving candidates projected
    to level, text, page and y_pos, in ascending order of (page, y_pos);
    every level is H1, H2 or H3; and a source fragment of an H1 heading is
    at least as large as a source fragment of an H2 heading. *)
Theorem level_assignment_and_order :
  forall (blocks : list Block) (body_size : Q),
  exists (hs : list Heading) (ti : option TitleInfo),
    identify_and_classify_headings blocks body_size = Ok (hs, ti) /\
    let candidates := collect_candidates ti body_size blocks in
    let sizes := candidate_sizes candidates in
    (forall x, InA Qeq x sizes <-> InA Qeq x (map font_size candidates))
    /\ StronglySorted (fun a b => b < a) sizes
    /\ (forall b i s,
           In b candidates -> nth_error sizes i = Some s ->
           s == font_size b ->
           level_of sizes (font_size b) =
           if (i <? 3)%nat then Some ("H" ++ str_of_nat (i + 1)) else None)
    /\ (forall b,
           In b candidates ->
           (level_of sizes (font_size b) = None <->
            ~ InA Qeq (font_size b) (firstn 3 sizes)))
    /\ Permutation hs (leveled sizes candidates)
    /\ (forall h, In h hs <-> exists b, source_of sizes candidates h b)
    /\ StronglySorted reading_order_le hs
    /\ (forall h, In h hs ->
                  level h = "H1" \/ level h = "H2" \/ level h = "H3")
    /\ (forall h1 h2 b1 b2,
           In h1 hs -> In h2 hs ->
           source_of sizes candidates h1 b1 ->
           source_of sizes candidates h2 b2 ->
           level h1 = "H1" -> level h2 = "H2" ->
           font_size b2 <= font_size b1).
Proof.
  intros blocks body_size.
  destruct (identify_and_classify_headings_total blocks body_size)
    as [hs [ti H]].
  exists hs, ti. split; [exact H|]. intros candidates sizes.
  apply identify_and_classify_headings_eq in H. destruct H as [_ Hhs].
  fold candidates in Hhs. fold sizes in Hhs.
  assert (Hdesc : StronglySorted (fun a b => b < a) sizes)
    by apply candidate_sizes_descending.
  assert (Hin : forall h, In h hs <-> exists b, source_of sizes candidates h b).
  { intros h. rewrite Hhs, sorted_In. apply In_leveled. }
  split; [apply candidate_sizes_InA|].
  split; [exact Hdesc|].
  split; [intros b i s _ Hi E; now apply level_of_rank with s|].
  split; [intros b _; apply level_of_None|].
  split; [rewrite Hhs; apply sorted_perm|].
  split; [exact Hin|].
  split; [rewrite Hhs; apply sorted_headings_order|].
  split.
  - intros h Hh. apply Hin in Hh. destruct Hh as [b [_ [Hl _]]].
    now apply level_of_cases in Hl.
  - intros h1 h2 b1 b2 _ _ [_ [L1 _]] [_ [L2 _]] E1 E2.
    rewrite E1 in L1. rewrite E2 in L2. clear - L1 L2 Hdesc.
    unfold level_of in L1, L2.
    destruct sizes as [|s1 [|s2 rest]]; try discriminate.
    + destruct (Qeq_bool s1 (font_size b2)); discriminate.
    + apply StronglySorted_inv in Hdesc. destruct Hdesc as [_ H1].
      inversion H1 as [|? ? H12 _]; subst.
      destruct (Qeq_bool s1 (font_size b1)) eqn:A1.
      * apply Qeq_bool_iff in A1.
        destruct (Qeq_bool s1 (font_size b2)) eqn:A2; [discriminate|].
        destruct (Qeq_bool s2 (font_size b2)) eqn:B2.
        -- apply Qeq_bool_iff in B2. rewrite <- A1, <- B2.
           now apply Qlt_le_weak.
        -- destruct rest as [|s3 rest]; [discriminate|].
           destruct (Qeq_bool s3 (font_size b2)); discriminate.
      * destruct (Qeq_bool s2 (font_size b1)); [discriminate|].
        destruct rest as [|s3 rest]; [discriminate|].
        destruct (Qeq_bool s3 (font_size b1)); discriminate.
Qed.

(* ================================================================= *)
(** ** The candidacy bound *)




(* ================================================================= *)
(** ** Title selection *)

Lemma fold_max_spec (l : list Q) (x : Q) :
  let m := fold_left (fun m y => if Qlt_bool m y then y else m) l x in
  In m (x :: l) /\ forall y, In y (x :: l) -> y <= m.
Proof.
  revert x; induction l as [|z l IH]; intros x; simpl.
  - split; [auto|]. intros y [<-|[]]. apply Qle_refl.
  - destruct (Qlt_bool x z) eqn:E.
    + destruct (IH z) as [Hin Hmax]. split.
      * simpl in Hin. tauto.
      * intros y [<-|Hy].
        -- apply Qlt_bool_iff in E. apply Qle_trans with z.
           ++ now apply Qlt_le_weak.
           ++ apply Hmax. now left.
        -- now apply Hmax.
    + destruct (IH x) as [Hin Hmax]. split.
      * simpl in Hin. simpl. tauto.
      * intros y [<-|[<-|Hy]].
        -- apply Hmax. now left.
        -- apply Qlt_bool_false in E. apply Qle_trans with x; [assumption|].
           apply Hmax. now left.
        -- apply Hmax. now right.
Qed.

Lemma py_max_spec (l : list Q) :
  l <> [] ->
  exists m, py_max l = Ok m /\ In m l /\ forall y, In y l -> y <= m.
Proof.
  destruct l as [|x l]; [congruence|]. intros _.
  eexists. split; [reflexivity|]. apply fold_max_spec.
Qed.

Lemma find_title_first (max_font : Q) (first_blocks : list Block) :
  (exists b, In b first_blocks /\ font_size b == max_font) ->
  exists (pre : list Block) (b : Block) (post : list Block),
    first_blocks = (pre ++ b :: post)%list
    /\ font_size b == max_font
    /\ (forall b', In b' pre -> ~ font_size b' == max_font)
    /\ find_title max_font first_blocks =
       Some {| title_text := text b; title_page := 1 |}.
Proof.
  induction first_blocks as [|a l IH]; intros [b [Hb Eb]]; [destruct Hb|].
  simpl. destruct (Qeq_bool (font_size a) max_font) eqn:E.
  - exists [], a, l. apply Qeq_bool_iff in E. simpl. intuition.
  - apply Qeq_bool_false in E. destruct Hb as [->|Hb]; [contradiction|].
    destruct IH as [pre [b0 [post [-> [E0 [Hpre Hf]]]]]]; [eauto|].
    exists (a :: pre), b0, post. simpl. repeat split; auto.
    intros b' [<-|Hb']; auto.
Qed.

Lemma filter_split {A : Type} (f : A -> bool) (l l1 l2 : list A) (b : A) :
  filter f l = (l1 ++ b :: l2)%list ->
  exists p q, l = (p ++ b :: q)%list /\ filter f p = l1 /\ filter f q = l2.
Proof.
  revert l1; induction l as [|a l IH]; intros l1 H; simpl in H.
  - destruct l1; discriminate.
  - destruct (f a) eqn:E.
    + destruct l1 as [|c l1]; simpl in H.
      * injection H as -> H. exists [], l. auto.
      * injection H as -> H. apply IH in H.
        destruct H as [p [q [-> [Hp Hq]]]].
        exists (c :: p), q. simpl. rewrite E, Hp. auto.
    + apply IH in H. destruct H as [p [q [-> [Hp Hq]]]].
      exists (a :: p), q. simpl. rewrite E. auto.
Qed.

(** The title is the first page-1 fragment of greatest page-1 font size. *)
Lemma select_title_first_largest (blocks : list Block) :
  filter (fun b => (page b =? 1)%Z) blocks <> [] ->
  exists (pre : list Block) (b : Block) (post : list Block),
    blocks = (pre ++ b :: post)%list
    /\ page b = 1%Z
    /\ (forall b', In b' blocks -> page b' = 1%Z ->
                   font_size b' <= font_size b)
    /\ (forall b', In b' pre -> page b' = 1%Z ->
                   font_size b' < font_size b)
    /\ select_title blocks =
       Ok (Some {| title_text := text b; title_page := 1 |}).
Proof.
  intros Hne. unfold select_title.
  set (first_blocks := filter (fun b => (page b =? 1)%Z) blocks) in *.
  destruct (py_max_spec (map font_size first_blocks)) as [m [Hm [Hin Hmax]]].
  { destruct first_blocks; [congruence | discriminate]. }
  rewrite Hm. unfold bind.
  apply in_map_iff in Hin. destruct Hin as [bm [Ebm Hbm]].
  destruct (find_title_first m first_blocks) as [l1 [b [l2 [Hfb [Eb [Hpre Hf]]]]]].
  { exists bm. split; [assumption|]. now rewrite Ebm. }
  destruct (filter_split _ _ _ _ _ Hfb) as [p [q [Hbl [Hp Hq]]]].
  assert (Hb1 : In b first_blocks) by (rewrite Hfb; apply in_elt).
  apply filter_In in Hb1. destruct Hb1 as [_ Hb1]. apply Z.eqb_eq in Hb1.
  assert (Hle : forall b', In b' blocks -> page b' = 1%Z ->
                           font_size b' <= font_size b).
  { intros b' Hb' Hp'. rewrite Eb. apply Hmax. apply in_map.
    apply filter_In. split; [assumption | now apply Z.eqb_eq]. }
  exists p, b, q. repeat split; auto.
  - intros b' Hb' Hp'.
    assert (Hin1 : In b' l1).
    { rewrite <- Hp. apply filter_In. split; [assumption | now apply Z.eqb_eq]. }
    assert (Hle' : font_size b' <= font_size b).
    { apply Hle; [|assumption]. rewrite Hbl. apply in_or_app. now left. }
    apply Qle_lteq in Hle'. destruct Hle' as [Hlt|Heq]; [assumption|].
    exfalso. apply (Hpre b' Hin1). now rewrite Heq.
  - destruct first_blocks; [congruence|]. now rewrite Hf.
Qed.

Lemma select_title_absent (blocks : list Block) :
  filter (fun b => (page b =? 1)%Z) blocks = [] ->
  select_title blocks = Ok None.
Proof. intros H. unfold select_title. now rewrite H. Qed.

Lemma identify_title (blocks : list Block) (body_size : Q)
  (ti : option TitleInfo) :
  select_title blocks = Ok ti ->
  exists hs, identify_and_classify_headings blocks body_size = Ok (hs, ti).
Proof.
  intros H. unfold identify_and_classify_headings. rewrite H. unfold bind.
  destruct (collect_candidates ti body_size blocks); eauto.
Qed.

(* ================================================================= *)
(** ** Section partitioning *)

Lemma end_bound_eq {A : Type} (f : Heading -> A) (headings : list Heading)
  (i : nat) :
  (if (i + 1 <? List.length headings)%nat
   then h <- py_index headings (i + 1) ;; Ok (Fin (f h))
   else Ok PInf)
  = Ok (end_bound f headings i).
Proof.
  unfold end_bound, py_index.
  destruct (i + 1 <? List.length headings)%nat eqn:E.
  - apply Nat.ltb_lt in E. apply nth_error_Some in E.
    destruct (nth_error headings (i + 1)); [reflexivity | congruence].
  - apply Nat.ltb_ge in E. apply nth_error_None in E. now rewrite E.
Qed.

Lemma section_content_filter (start_page : Z) (start_y : Q)
  (end_page : ext Z) (end_y : ext Q) (headings : list Heading)
  (blocks : list Block) :
  section_content start_page start_y end_page end_y headings blocks =
  map text
      (filter (in_section start_page start_y end_page end_y headings) blocks).
Proof.
  induction blocks as [|b bs IH]; simpl; [reflexivity|].
  destruct (in_section _ _ _ _ _ b); simpl; now rewrite IH.
Qed.

Lemma sections_from_eq (blocks : list Block) (headings todo : list Heading)
  (i : nat) :
  sections_from blocks headings i todo =
  Ok (map (fun ih => section_at blocks headings (fst ih) (snd ih))
          (combine (seq i (List.length todo)) todo)).
Proof.
  revert i; induction todo as [|h todo IH]; intros i; [reflexivity|].
  cbn [sections_from]. rewrite !end_bound_eq. cbn [bind].
  rewrite IH. cbn [bind]. rewrite section_content_filter. reflexivity.
Qed.

Lemma group_text_into_sections_eq (blocks : list Block)
  (headings : list Heading) :
  group_text_into_sections blocks headings =
  Ok (map (fun ih => section_at blocks headings (fst ih) (snd ih))
          (enumerate headings)).
Proof.
  unfold group_text_into_sections, enumerate.
  destruct headings; [reflexivity | apply sections_from_eq].
Qed.

Lemma nth_error_combine_seq {A : Type} (l : list A) (k i : nat) (a : A) :
  nth_error l i = Some a ->
  nth_error (combine (seq k (List.length l)) l) i = Some ((k + i)%nat, a).
Proof.
  revert k i; induction l as [|x l IH]; intros k i H; [destruct i; discriminate|].
  destruct i as [|i]; simpl in *.
  - injection H as ->. now rewrite Nat.add_0_r.
  - rewrite (IH (S k) i H). do 2 f_equal. lia.
Qed.

Lemma nth_error_enumerate {A : Type} (l : list A) (i : nat) (a : A) :
  nth_error l i = Some a -> nth_error (enumerate l) i = Some (i, a).
Proof. intros H. unfold enumerate. now rewrite (nth_error_combine_seq l 0 i a H). Qed.

Lemma enumerate_length {A : Type} (l : list A) :
  List.length (enumerate l) = List.length l.
Proof.
  unfold enumerate. rewrite length_combine, length_seq. apply Nat.min_id.
Qed.

Lemma is_heading_iff (headings : list Heading) (b : Block) :
  is_heading headings b = true <-> matches_heading headings b.
Proof.
  unfold is_heading, matches_heading. rewrite existsb_exists.
  split; intros [h [Hh H]]; exists h; split; auto.
  - apply andb_true_iff in H. now rewrite String.eqb_eq, Z.eqb_eq in H.
  - now rewrite andb_true_iff, String.eqb_eq, Z.eqb_eq.
Qed.

Lemma in_section_iff (headings : list Heading) (i : nat) (h : Heading)
  (b : Block) :
  in_section (h_page h) (h_y_pos h) (end_bound h_page headings i)
             (end_bound h_y_pos headings i) headings b = true
  <-> strictly_after b h
      /\ strictly_before b (nth_error headings (i + 1))
      /\ ~ matches_heading headings b.
Proof.
  unfold in_section, end_bound, strictly_after, strictly_before.
  rewrite !andb_true_iff, negb_true_iff, <- is_heading_iff.
  rewrite orb_true_iff, andb_true_iff, Z.ltb_lt, Z.eqb_eq, Qlt_bool_iff.
  destruct (nth_error headings (i + 1)) as [h'|]; simpl.
  - rewrite orb_true_iff, andb_true_iff, Z.ltb_lt, Z.eqb_eq, Qlt_bool_iff.
    destruct (is_heading headings b); intuition congruence.
  - destruct (is_heading headings b); intuition congruence.
Qed.

Lemma In_section_blocks (blocks : list Block) (headings : list Heading)
  (i : nat) (h : Heading) (b : Block) :
  In b (section_blocks blocks headings i h) <->
  In b blocks
  /\ strictly_after b h
  /\ strictly_before b (nth_error headings (i + 1))
  /\ ~ matches_heading headings b.
Proof. unfold section_blocks. now rewrite filter_In, in_section_iff. Qed.

(** C3.  The partitioner returns one section per heading, in heading order.
    The section of the heading at index [i] carries that heading's text,
    level and page, and its content joins with newlines, in stream order,
    the texts of exactly the fragments strictly after the heading's
    (page, y_pos), strictly before the next heading's (page, y_pos) (no bound
    after the last heading), and whose (text, page) is that of no heading.
    An empty heading list gives no section. *)
Theorem section_partitioning :
  forall (blocks : list Block) (headings : list Heading),
  exists sections : list Section_,
    group_text_into_sections blocks headings = Ok sections
    /\ List.length sections = List.length headings
    /\ (headings = [] -> sections = [])
    /\ (forall (i : nat) (h : Heading),
           nth_error headings i = Some h ->
           exists selected : list Block,
             nth_error sections i =
             Some {| heading_text := h_text h;
                     heading_level := level h;
                     s_page := h_page h;
                     content := String.concat newline (map text selected) |}
             /\ (exists keep : Block -> bool, selected = filter keep blocks)
             /\ (forall b : Block,
                    In b selected <->
                    In b blocks
                    /\ strictly_after b h
                    /\ strictly_before b (nth_error headings (i + 1))
                    /\ ~ matches_heading headings b)).
Proof.
  intros blocks headings. eexists. split; [apply group_text_into_sections_eq|].
  split; [now rewrite length_map, enumerate_length|].
  split; [intros ->; reflexivity|].
  intros i h Hi. exists (section_blocks blocks headings i h).
  split; [|split].
  - rewrite nth_error_map, (nth_error_enumerate _ _ _ Hi). reflexivity.
  - eexists. reflexivity.
  - apply In_section_blocks.
Qed.

(* ================================================================= *)
(** ** Coverage of the fragment stream by the sections *)

Lemma position_trichotomy (b : Block) (h : Heading) :
  strictly_before b (Some h) \/ same_position b h \/ strictly_after b h.
Proof.
  unfold strictly_before, same_position, strictly_after.
  destruct (Z.lt_trichotomy (page b) (h_page h)) as [Hlt|[Heq|Hgt]].
  - left. now left.
  - destruct (Q_dec (y_pos b) (h_y_pos h)) as [[Hy|Hy]|Hy].
    + left. right. auto.
    + right. right. right. auto.
    + right. left. auto.
  - right. right. now left.
Qed.

Lemma strongly_sorted_nth {A : Type} (R : A -> A -> Prop) (l : list A) :
  StronglySorted R l ->
  forall i j a c, (i < j)%nat ->
    nth_error l i = Some a -> nth_error l j = Some c -> R a c.
Proof.
  induction 1 as [|x l Hs IH Hall]; intros i j a c Hij Hi Hj.
  - destruct i; discriminate.
  - destruct j as [|j]; [lia|]. simpl in Hj. destruct i as [|i]; simpl in Hi.
    + injection Hi as ->. rewrite Forall_forall in Hall.
      apply Hall. eapply nth_error_In; eauto.
    + apply (IH i j); [lia | assumption | assumption].
Qed.

(** A fragment strictly before a heading is strictly before every later
    position in reading order, hence not strictly after it. *)
Lemma before_not_after_later (b : Block) (h h' : Heading) :
  strictly_before b (Some h) -> reading_order_le h h' ->
  strictly_after b h' -> False.
Proof.
  unfold strictly_before, reading_order_le, strictly_after.
  intros [Hb|[Eb Yb]] [Hle|[Ele Yle]] [Ha|[Ea Ya]]; try lia.
  assert (y_pos b < y_pos b); [|now apply Qlt_irrefl in H].
  apply Qlt_le_trans with (h_y_pos h); [assumption|].
  apply Qle_trans with (h_y_pos h'); [assumption | now apply Qlt_le_weak].
Qed.

Lemma sections_disjoint (blocks : list Block) (hs : list Heading) :
  StronglySorted reading_order_le hs ->
  forall i j hi hj b,
    (i < j)%nat ->
    nth_error hs i = Some hi -> nth_error hs j = Some hj ->
    In b (section_blocks blocks hs i hi) ->
    In b (section_blocks blocks hs j hj) -> False.
Proof.
  intros Hs i j hi hj b Hij Hi Hj Hbi Hbj.
  apply In_section_blocks in Hbi. destruct Hbi as [_ [_ [Hbefore _]]].
  apply In_section_blocks in Hbj. destruct Hbj as [_ [Hafter _]].
  destruct (nth_error hs (i + 1)) as [hn|] eqn:Hn.
  - apply (before_not_after_later b hn hj); [assumption| |assumption].
    destruct (Nat.eq_dec (i + 1) j) as [<-|Hne].
    + rewrite Hn in Hj. injection Hj as <-.
      right. split; [reflexivity | apply Qle_refl].
    + apply (strongly_sorted_nth _ _ Hs (i + 1)%nat j); [lia | assumption..].
  - apply nth_error_None in Hn.
    assert (j < List.length hs)%nat by (apply nth_error_Some; congruence). lia.
Qed.

(** Walking down the headings from one the fragment is strictly after, the
    fragment falls into the window of some heading unless it lies exactly
    at a heading's position. *)
Lemma window_found (b : Block) (hs : list Heading) (k : nat) (h : Heading) :
  (forall h', In h' hs -> ~ same_position b h') ->
  nth_error hs k = Some h -> strictly_after b h ->
  exists i hi,
    nth_error hs i = Some hi
    /\ strictly_after b hi
    /\ strictly_before b (nth_error hs (i + 1)).
Proof.
  intros Hns. remember (List.length hs - k)%nat as n eqn:En.
  revert k h En. induction n as [|n IH]; intros k h En Hk Ha.
  - assert (k < List.length hs)%nat by (apply nth_error_Some; congruence). lia.
  - destruct (nth_error hs (k + 1)) as [h'|] eqn:Hk'.
    + destruct (position_trichotomy b h') as [Hb|[Hsame|Hafter]].
      * exists k, h. rewrite Hk'. auto.
      * exfalso. apply (Hns h'); [eapply nth_error_In; eauto | assumption].
      * apply (IH (k + 1)%nat h'); [lia | assumption | assumption].
    + exists k, h. rewrite Hk'. simpl. auto.
Qed.

Lemma sections_cover (blocks : list Block) (hs : list Heading)
  (h0 : Heading) (b : Block) :
  hd_error hs = Some h0 -> In b blocks -> on_or_after b h0 ->
  (exists i h, nth_error hs i = Some h
               /\ In b (section_blocks blocks hs i h))
  \/ matches_heading hs b
  \/ (exists h, In h hs /\ same_position b h).
Proof.
  intros H0 Hb Hon.
  destruct (is_heading hs b) eqn:Eh.
  { right. left. now apply is_heading_iff. }
  assert (Hnm : ~ matches_heading hs b)
    by (rewrite <- is_heading_iff; congruence).
  assert (Hdec : (exists h, In h hs /\ same_position b h)
                 \/ forall h, In h hs -> ~ same_position b h).
  { clear. induction hs as [|h hs IH].
    - right. intros h [].
    - destruct IH as [[h' [Hin Hs]]|IH].
      + left. exists h'. split; [now right | assumption].
      + destruct (position_trichotomy b h) as [Hb|[Hs|Ha]].
        * right. intros h' [<-|Hin]; [|auto].
          intros [Ep Ey]. destruct Hb as [Hb|[_ Hb]]; [lia|].
          rewrite Ey in Hb. now apply Qlt_irrefl in Hb.
        * left. exists h. split; [now left | assumption].
        * right. intros h' [<-|Hin]; [|auto].
          intros [Ep Ey]. destruct Ha as [Ha|[_ Ha]]; [lia|].
          rewrite Ey in Ha. now apply Qlt_irrefl in Ha. }
  destruct Hdec as [Hsame|Hns]; [now right; right|]. left.
  assert (Hk : nth_error hs 0 = Some h0) by (destruct hs; simpl in *; congruence).
  assert (Ha : strictly_after b h0).
  { destruct Hon as [Hp|[Ep Hy]]; [now left|].
    apply Qle_lteq in Hy. destruct Hy as [Hy|Hy]; [right; auto|].
    exfalso. apply (Hns h0); [eapply nth_error_In; eauto|].
    split; [assumption | now symmetry]. }
  destruct (window_found b hs 0 h0 Hns Hk Ha) as [i [hi [Hi [Hai Hbi]]]].
  exists i, hi. split; [assumption|]. apply In_section_blocks. auto.
Qed.

(** A fragment exactly at the position of a heading is outside every
    window: the bounds are strict on both sides. *)
Lemma boundary_in_no_section (blocks : list Block) (hs : list Heading) :
  StronglySorted reading_order_le hs ->
  forall h b i hi,
    In h hs -> same_position b h -> nth_error hs i = Some hi ->
    ~ In b (section_blocks blocks hs i hi).
Proof.
  intros Hs h b i hi Hh [Ep Ey] Hi Hin.
  apply In_section_blocks in Hin. destruct Hin as [_ [Hafter [Hbefore _]]].
  apply In_nth_error in Hh. destruct Hh as [k Hk].
  assert (Hrefl : forall a, reading_order_le a a)
    by (intros a; right; split; [reflexivity | apply Qle_refl]).
  destruct (Nat.lt_ge_cases i k) as [Hlt|Hge].
  - (* the window of an earlier heading ends at or before [h] *)
    destruct (nth_error hs (i + 1)) as [hn|] eqn:Hn.
    + assert (Hle : reading_order_le hn h).
      { destruct (Nat.eq_dec (i + 1) k) as [E|Hne].
        - subst k. rewrite Hn in Hk. injection Hk as ->. apply Hrefl.
        - apply (strongly_sorted_nth _ _ Hs (i + 1)%nat k); [lia | assumption..]. }
      destruct Hbefore as [Hp|[Ep' Hy]]; destruct Hle as [Hp'|[Ep'' Hy']];
        try lia.
      lra.
    + apply nth_error_None in Hn.
      assert (k < List.length hs)%nat by (apply nth_error_Some; congruence). lia.
  - (* the window of [h] or of a later heading starts at or after [h] *)
    assert (Hle : reading_order_le h hi).
    { destruct (Nat.eq_dec k i) as [E|Hne].
      - subst k. rewrite Hi in Hk. injection Hk as ->. apply Hrefl.
      - apply (strongly_sorted_nth _ _ Hs k i); [lia | assumption..]. }
    destruct Hafter as [Hp|[Ep' Hy]]; destruct Hle as [Hp'|[Ep'' Hy']];
      try lia.
    lra.
Qed.

(** C7, as the code has it.  For the headings the classifier returns: no
    fragment belongs to the content of two sections; consecutive headings,
    whose positions bound consecutive sections, are in reading order; and
    every fragment on or after the first heading's position belongs to the
    content of a section, or carries the (text, page) of a heading, or lies
    exactly at the (page, y_pos) of a heading; a fragment exactly at the
    position of a heading belongs to no section. *)
Theorem section_coverage :
  forall (blocks : list Block) (body_size : Q),
  exists (hs : list Heading) (ti : option TitleInfo),
    identify_and_classify_headings blocks body_size = Ok (hs, ti)
    /\ (forall i j hi hj b,
           i <> j ->
           nth_error hs i = Some hi -> nth_error hs j = Some hj ->
           In b (section_blocks blocks hs i hi) ->
           ~ In b (section_blocks blocks hs j hj))
    /\ (forall i hi hj,
           nth_error hs i = Some hi -> nth_error hs (i + 1) = Some hj ->
           reading_order_le hi hj)
    /\ (forall h0 b,
           hd_error hs = Some h0 -> In b blocks -> on_or_after b h0 ->
           (exists i h, nth_error hs i = Some h
                        /\ In b (section_blocks blocks hs i h))
           \/ matches_heading hs b
           \/ (exists h, In h hs /\ same_position b h))
    /\ (forall h b i hi,
           In h hs -> same_position b h -> nth_error hs i = Some hi ->
           ~ In b (section_blocks blocks hs i hi)).
Proof.
  intros blocks body_size.
  destruct (identify_and_classify_headings_total blocks body_size)
    as [hs [ti H]].
  exists hs, ti. split; [exact H|].
  apply identify_and_classify_headings_eq in H. destruct H as [_ Hhs].
  assert (Hs : StronglySorted reading_order_le hs)
    by (rewrite Hhs; apply sorted_headings_order).
  split; [|split; [|split]]; [| | |apply (boundary_in_no_section blocks hs Hs)].
  - intros i j hi hj b Hij Hi Hj Hbi Hbj.
    destruct (Nat.lt_total i j) as [Hlt|[Heq|Hgt]]; [|contradiction|].
    + exact (sections_disjoint blocks hs Hs i j hi hj b Hlt Hi Hj Hbi Hbj).
    + exact (sections_disjoint blocks hs Hs j i hj hi b Hgt Hj Hi Hbj Hbi).
  - intros i hi hj Hi Hj.
    apply (strongly_sorted_nth _ _ Hs i (i + 1)%nat); [lia | assumption..].
  - intros h0 b. apply sections_cover.
Qed.

(** C7, as stated, fails: a fragment on the heading's own line is on or
    after the first heading's position, is in no section's content and is
    not a heading fragment. *)
Lemma section_coverage_counterexample :
  get_body_text_style same_line_blocks = Ok (12, "")
  /\ exists (hs : list Heading) (ti : option TitleInfo) (h0 : Heading)
            (b : Block),
       identify_and_classify_headings same_line_blocks 12 = Ok (hs, ti)
       /\ hd_error hs = Some h0
       /\ In b same_line_blocks
       /\ on_or_after b h0
       /\ ~ matches_heading hs b
       /\ ~ (exists i h, nth_error hs i = Some h
                         /\ In b (section_blocks same_line_blocks hs i h)).
Proof.
  split; [reflexivity|].
  exists [ {| level := "H1"; h_text := "1. Intro"; h_page := 1;
              h_y_pos := 50 |} ],
         (Some {| title_text := "Annual Report"; title_page := 1 |}),
         {| level := "H1"; h_text := "1. Intro"; h_page := 1; h_y_pos := 50 |},
         {| text := "(draft)"; font_size := 12; font_name := "Helvetica";
            page := 1; y_pos := 50 |}.
  split; [reflexivity|]. split; [reflexivity|].
  split; [simpl; tauto|].
  split; [right; split; [reflexivity | apply Qle_refl]|].
  split.
  - rewrite <- is_heading_iff. vm_compute. discriminate.
  - intros [i [h [Hi Hin]]].
    destruct i as [|i]; [|destruct i; discriminate].
    injection Hi as <-. vm_compute in Hin.
    destruct Hin as [Hin|[]]. discriminate.
Qed.

(* ================================================================= *)
(** ** The first item of greatest count *)

Lemma first_max_unique (c : list (Q * nat)) (a b : Q * nat) :
  first_max a c -> first_max b c -> a = b.
Proof.
  intros [pa [qa [Ea [Hpa Hqa]]]] [pb [qb [Eb [Hpb Hqb]]]].
  subst c. revert pb Eb Hpb. induction pa as [|x pa IH]; intros pb Eb Hpb.
  - destruct pb as [|y pb]; simpl in Eb.
    + congruence.
    + injection Eb as Ey Eb. subst y. exfalso.
      assert (snd a < snd b)%nat by (apply Hpb; now left).
      assert (snd b <= snd a)%nat by (apply Hqa; rewrite Eb; apply in_elt).
      lia.
  - destruct pb as [|y pb]; simpl in Eb.
    + injection Eb as Ex Eb. subst x. exfalso.
      assert (snd b < snd a)%nat by (apply Hpa; now left).
      assert (snd a <= snd b)%nat by (apply Hqb; rewrite <- Eb; apply in_elt).
      lia.
    + injection Eb as Ex Eb. subst y.
      apply (IH (fun p Hp => Hpa p (or_intror Hp)) pb Eb).
      intros p Hp. apply Hpb. now right.
Qed.

Lemma fold_best_first_max (c' seen : list (Q * nat)) (cur : Q * nat) :
  first_max cur seen ->
  first_max
    (fold_left (fun best kv' => if (snd best <? snd kv')%nat then kv' else best)
               c' cur)
    (seen ++ c').
Proof.
  revert seen cur; induction c' as [|x c' IH]; intros seen cur Hcur; simpl.
  - now rewrite app_nil_r.
  - replace (seen ++ x :: c')%list with ((seen ++ [x]) ++ c')%list
      by (rewrite <- app_assoc; reflexivity).
    apply IH. destruct Hcur as [pre [post [-> [Hpre Hpost]]]].
    destruct (snd cur <? snd x)%nat eqn:E.
    + apply Nat.ltb_lt in E. exists (pre ++ cur :: post)%list, [].
      split; [reflexivity|]. split; [|intros p []].
      intros p Hp. apply in_app_or in Hp. destruct Hp as [Hp|[<-|Hp]].
      * specialize (Hpre p Hp). lia.
      * assumption.
      * specialize (Hpost p Hp). lia.
    + apply Nat.ltb_ge in E. exists pre, (post ++ [x])%list.
      split; [now rewrite <- app_assoc|]. split; [assumption|].
      intros p Hp. apply in_app_or in Hp. destruct Hp as [Hp|[<-|[]]]; auto.
Qed.

Lemma most_common_1_first_max (c : list (Q * nat)) :
  c <> [] -> exists kv, most_common_1 c = [kv] /\ first_max kv c.
Proof.
  destruct c as [|kv c']; [congruence|]. intros _. eexists.
  split; [reflexivity|].
  apply (fold_best_first_max c' [kv] kv).
  exists [], []. split; [reflexivity|]. split; intros p [].
Qed.

Lemma sorted_by_count_head (c : list (Q * nat)) :
  c <> [] ->
  exists kv,
    hd_error (sorted (fun x y : Q * nat => (snd y <=? snd x)%nat) c) = Some kv
    /\ first_max kv c.
Proof.
  induction c as [|x c IH]; [congruence|]. intros _.
  cbn [sorted]. rewrite sorted_insert_head.
  destruct c as [|y c].
  - simpl. exists x. split; [reflexivity|].
    exists [], []. split; [reflexivity|]. split; intros p [].
  - destruct IH as [kv [Hhd [pre [post [Ec [Hpre Hpost]]]]]]; [discriminate|].
    rewrite Hhd. destruct (snd kv <=? snd x)%nat eqn:E.
    + apply Nat.leb_le in E. exists x. split; [reflexivity|].
      exists [], (y :: c). split; [reflexivity|]. split; [intros p []|].
      intros p Hp. rewrite Ec in Hp. apply in_app_or in Hp.
      destruct Hp as [Hp|[<-|Hp]].
      * specialize (Hpre p Hp). lia.
      * assumption.
      * specialize (Hpost p Hp). lia.
    + apply Nat.leb_gt in E. exists kv. split; [reflexivity|].
      exists (x :: pre), post. split; [simpl; now rewrite Ec|].
      split; [|assumption]. intros p [<-|Hp]; auto.
Qed.

Lemma fold_max_count_bound (c : list (Q * nat)) (m : nat) :
  let top := fold_left (fun m kv => Nat.max m (snd kv)) c m in
  (m <= top)%nat /\ forall p, In p c -> (snd p <= top)%nat.
Proof.
  revert m; induction c as [|x c IH]; intros m; simpl.
  - split; [lia | intros p []].
  - destruct (IH (Nat.max m (snd x))) as [Hm Hc]. split; [lia|].
    intros p [<-|Hp]; [lia | auto].
Qed.

Lemma unique_top_first_max (c : list (Q * nat)) (kv : Q * nat) :
  filter (fun kv => (snd kv
                     =? fold_left (fun m kv => Nat.max m (snd kv)) c 0)%nat) c
  = [kv] ->
  first_max kv c.
Proof.
  intros H. destruct (fold_max_count_bound c 0) as [_ Htop].
  set (top := fold_left (fun m kv => Nat.max m (snd kv)) c 0%nat) in *.
  assert (Hkv : snd kv = top).
  { assert (Hin : In kv (filter (fun kv => (snd kv =? top)%nat) c))
      by (rewrite H; now left).
    apply filter_In in Hin. now apply Nat.eqb_eq. }
  destruct (filter_split _ c [] [] kv H) as [pre [post [Ec [Hpre Hpost]]]].
  exists pre, post. split; [exact Ec|].
  assert (Hlt : forall l p, filter (fun kv => (snd kv =? top)%nat) l = [] ->
                            (forall q, In q l -> In q c) ->
                            In p l -> (snd p < snd kv)%nat).
  { intros l p Hf Hsub Hp.
    assert (Hle : (snd p <= top)%nat) by (apply Htop, Hsub, Hp).
    assert (Hne : snd p <> top).
    { intros E. assert (Hin : In p (filter (fun kv => (snd kv =? top)%nat) l)).
      { apply filter_In. split; [assumption | now apply Nat.eqb_eq]. }
      rewrite Hf in Hin. destruct Hin. }
    lia. }
  split.
  - intros p Hp. apply (Hlt pre p Hpre); [|assumption].
    intros q Hq. rewrite Ec. apply in_or_app. now left.
  - intros p Hp. apply Nat.lt_le_incl. apply (Hlt post p Hpost); [|assumption].
    intros q Hq. rewrite Ec. apply in_or_app. right. now right.
Qed.

(* ================================================================= *)
(** ** [Counter] *)

Lemma occurrences_snoc (k x : Q) (l : list Q) :
  occurrences k (l ++ [x]) =
  if Qeq_bool k x then S (occurrences k l) else occurrences k l.
Proof.
  unfold occurrences. rewrite filter_app, length_app. simpl.
  destruct (Qeq_bool k x); simpl; lia.
Qed.

Lemma occurrences_Qeq (x y : Q) (l : list Q) :
  x == y -> occurrences x l = occurrences y l.
Proof.
  intros E. unfold occurrences. f_equal. apply filter_ext. intros z.
  destruct (Qeq_bool x z) eqn:Ex, (Qeq_bool y z) eqn:Ey; try reflexivity.
  - apply Qeq_bool_iff in Ex. apply Qeq_bool_false in Ey.
    exfalso. apply Ey. now rewrite <- E.
  - apply Qeq_bool_iff in Ey. apply Qeq_bool_false in Ex.
    exfalso. apply Ex. now rewrite E.
Qed.

Lemma occurrences_absent (x : Q) (l : list Q) :
  ~ InA Qeq x l -> occurrences x l = 0%nat.
Proof.
  intros H. unfold occurrences. induction l as [|y l IH]; [reflexivity|].
  simpl. destruct (Qeq_bool x y) eqn:E.
  - exfalso. apply H. left. now apply Qeq_bool_iff.
  - apply IH. intros Hin. apply H. now right.
Qed.

Lemma counter_incr_counts (s : list Q) (f : Q -> nat) (x : Q) :
  NoDupA Qeq s ->
  counter_incr (map (fun k => (k, f k)) s) x =
  if existsb (Qeq_bool x) s
  then map (fun k => (k, if Qeq_bool k x then S (f k) else f k)) s
  else (map (fun k => (k, if Qeq_bool k x then S (f k) else f k)) s
        ++ [(x, 1%nat)])%list.
Proof.
  induction 1 as [|k s Hk Hs IH]; [reflexivity|].
  cbn [map counter_incr existsb].
  destruct (Qeq_bool k x) eqn:E.
  - assert (Ex : Qeq_bool x k = true).
    { apply Qeq_bool_iff. apply Qeq_bool_iff in E. now symmetry. }
    rewrite Ex. cbn [orb]. f_equal. apply map_ext_in. intros k' Hk'.
    destruct (Qeq_bool k' x) eqn:E'; [|reflexivity].
    exfalso. apply Hk. apply InA_alt. exists k'. split; [|assumption].
    apply Qeq_bool_iff in E, E'. now rewrite E, E'.
  - assert (Ex : Qeq_bool x k = false).
    { apply Qeq_bool_false. apply Qeq_bool_false in E. intros H'. apply E.
      now symmetry. }
    rewrite Ex, IH. cbn [orb].
    destruct (existsb (Qeq_bool x) s); reflexivity.
Qed.

(** The counter lists the distinct elements in order of first occurrence,
    each with its number of occurrences. *)
Lemma Counter_counts (l : list Q) :
  Counter l = map (fun k => (k, occurrences k l)) (py_set l).
Proof.
  unfold Counter, py_set. induction l as [|x l IH] using rev_ind; [reflexivity|].
  rewrite !fold_left_app. cbn [fold_left]. rewrite IH.
  fold (py_set l). rewrite counter_incr_counts by apply py_set_NoDupA.
  unfold set_add. destruct (existsb (Qeq_bool x) (py_set l)) eqn:E.
  - apply map_ext. intros k. now rewrite occurrences_snoc.
  - rewrite map_app. cbn [map]. f_equal.
    + apply map_ext. intros k. now rewrite occurrences_snoc.
    + rewrite occurrences_snoc.
      assert (Hx : Qeq_bool x x = true) by (apply Qeq_bool_iff; reflexivity).
      rewrite Hx, occurrences_absent; [reflexivity|].
      rewrite <- py_set_InA, <- existsb_Qeq_InA. congruence.
Qed.

Lemma py_set_nonempty (l : list Q) : l <> [] -> py_set l <> [].
Proof.
  destruct l as [|x l]; [congruence|]. intros _ H.
  assert (Hin : InA Qeq x (py_set (x :: l))) by (apply py_set_InA; now left).
  rewrite H in Hin. inversion Hin.
Qed.

(** A key of the set stands in the list at its first occurrence: every
    earlier element equals an earlier key. *)
Lemma py_set_split (l ks_pre ks_post : list Q) (r : Q) :
  py_set l = (ks_pre ++ r :: ks_post)%list ->
  exists pre post : list Q,
    l = (pre ++ r :: post)%list /\ forall z, In z pre -> InA Qeq z ks_pre.
Proof.
  revert ks_post. induction l as [|x l IH] using rev_ind; intros ks_post H.
  - destruct ks_pre; discriminate.
  - unfold py_set in H. rewrite fold_left_app in H. cbn [fold_left] in H.
    fold (py_set l) in H. unfold set_add in H.
    destruct (existsb (Qeq_bool x) (py_set l)) eqn:E.
    + destruct (IH _ H) as [pre [post [-> Hpre]]].
      exists pre, (post ++ [x])%list. split; [|assumption].
      now rewrite <- app_assoc.
    + destruct ks_post as [|y ks_post _] using rev_ind.
      * apply app_inj_tail in H. destruct H as [Hks ->].
        exists l, []. split; [reflexivity|].
        intros z Hz. rewrite <- Hks. apply py_set_InA.
        apply InA_alt. exists z. split; [reflexivity | assumption].
      * replace (ks_pre ++ r :: ks_post ++ [y])%list
          with ((ks_pre ++ r :: ks_post) ++ [y])%list in H
          by (rewrite <- app_assoc; reflexivity).
        apply app_inj_tail in H. destruct H as [Hks ->].
        destruct (IH _ Hks) as [pre [post [-> Hpre]]].
        exists pre, (post ++ [y])%list. split; [|assumption].
        now rewrite <- app_assoc.
Qed.

Lemma first_max_first_mode (l : list Q) (kv : Q * nat) :
  first_max kv (Counter l) -> first_mode (fst kv) l.
Proof.
  rewrite Counter_counts. intros [cpre [cpost [Ec [Hcpre Hcpost]]]].
  apply map_eq_app in Ec. destruct Ec as [ks_pre [ks_rest [Eks [Epre Erest]]]].
  apply map_eq_cons in Erest. destruct Erest as [r [ks_post [-> [Er Epost]]]].
  subst kv cpre cpost. cbn [fst snd] in *.
  destruct (py_set_split l ks_pre ks_post r Eks) as [pre [post [El Hpre]]].
  exists pre, post. split; [exact El|].
  assert (Hkey : forall k, In k ks_pre -> (occurrences k l < occurrences r l)%nat).
  { intros k Hk. apply (Hcpre (k, occurrences k l)).
    apply in_map_iff. eauto. }
  assert (Hkey' : forall k, In k ks_post -> (occurrences k l <= occurrences r l)%nat).
  { intros k Hk. apply (Hcpost (k, occurrences k l)).
    apply in_map_iff. eauto. }
  split.
  - intros z Hz. apply Hpre in Hz. apply InA_alt in Hz.
    destruct Hz as [k [E Hk]]. rewrite (occurrences_Qeq z k l E). auto.
  - intros z Hz.
    assert (Hin : InA Qeq z (py_set l)).
    { apply py_set_InA. apply InA_alt. exists z. split; [reflexivity|].
      rewrite El. apply in_or_app. right. now right. }
    rewrite Eks in Hin. apply InA_alt in Hin. destruct Hin as [k [E Hk]].
    rewrite (occurrences_Qeq z k l E).
    apply in_app_or in Hk. destruct Hk as [Hk|[<-|Hk]].
    + apply Nat.lt_le_incl. auto.
    + apply Nat.le_refl.
    + auto.
Qed.

Lemma Counter_nonempty (l : list Q) : l <> [] -> Counter l <> [].
Proof.
  intros H. rewrite Counter_counts. intros E. apply map_eq_nil in E.
  now apply (py_set_nonempty l).
Qed.

(* ================================================================= *)
(** ** The body-style estimator *)

Lemma statistics_mode_first_max (l : list Q) :
  l <> [] ->
  exists kv, statistics_mode l = Ok (fst kv) /\ first_max kv (Counter l).
Proof.
  intros H. unfold statistics_mode.
  destruct (most_common_1_first_max (Counter l) (Counter_nonempty l H))
    as [[k n] [-> Hmax]].
  exists (k, n). auto.
Qed.

Lemma sorted_counter_first_max (l : list Q) :
  l <> [] ->
  exists kv,
    (kv' <- py_index (sorted (fun x y : Q * nat => (snd y <=? snd x)%nat)
                             (Counter l)) 0 ;;
     Ok (fst kv')) = Ok (fst kv)
    /\ first_max kv (Counter l).
Proof.
  intros H.
  destruct (sorted_by_count_head (Counter l) (Counter_nonempty l H))
    as [kv [Hhd Hmax]].
  exists kv. split; [|assumption]. unfold py_index.
  destruct (sorted _ (Counter l)) as [|kv' rest]; [discriminate|].
  simpl in *. congruence.
Qed.

Lemma statistics_mode_legacy_cases (l : list Q) :
  statistics_mode_legacy l = Raise StatisticsError
  \/ exists kv, statistics_mode_legacy l = Ok (fst kv)
                /\ first_max kv (Counter l).
Proof.
  unfold statistics_mode_legacy.
  destruct (filter _ (Counter l)) as [|[k n] [|kv' rest]] eqn:E; auto.
  right. exists (k, n). split; [reflexivity|].
  now apply unique_top_first_max.
Qed.

Lemma body_sizes_nonempty (blocks : list Block) :
  blocks <> [] -> body_sizes blocks <> [].
Proof.
  intros H. unfold body_sizes.
  destruct (map font_size (filter _ blocks)); [|discriminate].
  destruct blocks; [congruence | discriminate].
Qed.

Lemma get_body_text_style_with_first_max (mode : list Q -> res Q)
  (blocks : list Block) :
  (forall l, mode l = Raise StatisticsError
             \/ exists kv, mode l = Ok (fst kv) /\ first_max kv (Counter l)) ->
  blocks <> [] ->
  exists kv,
    get_body_text_style_with mode blocks = Ok (fst kv, "")
    /\ first_max kv (Counter (body_sizes blocks)).
Proof.
  intros Hmode Hne. pose proof (body_sizes_nonempty blocks Hne) as Hs.
  unfold get_body_text_style_with.
  destruct blocks as [|b0 bs]; [congruence|]. cbv zeta.
  destruct (Hmode (body_sizes (b0 :: bs))) as [E|[kv [E Hmax]]]; rewrite E.
  - destruct (sorted_counter_first_max _ Hs) as [kv [E' Hmax]].
    exists kv. rewrite E'. auto.
  - exists kv. auto.
Qed.

Lemma get_body_text_style_first_max (blocks : list Block) :
  blocks <> [] ->
  exists kv,
    get_body_text_style blocks = Ok (fst kv, "")
    /\ get_body_text_style_with statistics_mode_legacy blocks = Ok (fst kv, "")
    /\ first_max kv (Counter (body_sizes blocks)).
Proof.
  intros Hne.
  destruct (get_body_text_style_with_first_max statistics_mode blocks)
    as [kv [E Hmax]]; [|assumption|].
  { intros l. destruct l as [|x l]; [now left|]. right.
    apply statistics_mode_first_max. discriminate. }
  destruct (get_body_text_style_with_first_max statistics_mode_legacy blocks
              statistics_mode_legacy_cases Hne) as [kv' [E' Hmax']].
  exists kv. split; [exact E|]. split; [|exact Hmax].
  now rewrite (first_max_unique _ _ _ Hmax Hmax').
Qed.

Lemma map_filter_sizes (blocks : list Block) :
  map font_size (filter (fun b => Qlt_bool (font_size b) 20) blocks) =
  filter (fun s => Qlt_bool s 20) (map font_size blocks).
Proof.
  induction blocks as [|b bs IH]; simpl; [reflexivity|].
  destruct (Qlt_bool (font_size b) 20); simpl; now rewrite IH.
Qed.

(** C4.  The estimator returns 12 for no fragments.  Otherwise it returns
    the mode of the font sizes below 20, or of all font sizes when none is
    below 20: the size of greatest occurrence count, the first to occur in
    the stream among sizes of equal count.  The result is the same whether
    [statistics.mode] returns the first mode or raises on a tie. *)
Theorem body_style_estimation :
  forall blocks : list Block,
  exists body_size : Q,
    get_body_text_style blocks = Ok (body_size, "")
    /\ get_body_text_style_with statistics_mode_legacy blocks
       = Ok (body_size, "")
    /\ (blocks = [] -> body_size = 12)
    /\ (blocks <> [] ->
        let sizes := map font_size blocks in
        let small := filter (fun s => Qlt_bool s 20) sizes in
        (forall s, In s small <-> In s sizes /\ s < 20)
        /\ (small <> [] -> first_mode body_size small)
        /\ (small = [] -> first_mode body_size sizes)).
Proof.
  intros [|b0 bs].
  - exists 12. repeat split; congruence.
  - destruct (get_body_text_style_first_max (b0 :: bs)) as [kv [E [E' Hmax]]];
      [discriminate|].
    exists (fst kv). split; [exact E|]. split; [exact E'|].
    split; [discriminate|]. intros _ sizes small.
    split; [intros s; unfold small; now rewrite filter_In, Qlt_bool_iff|].
    apply first_max_first_mode in Hmax. unfold body_sizes in Hmax.
    rewrite map_filter_sizes in Hmax. fold sizes in Hmax. fold small in Hmax.
    split; intros Hs; destruct small; congruence.
Qed.

(** C10.  For a non-empty fragment list the body size is the font size of
    one of the fragments; the default 12 is returned for the empty list. *)
Theorem body_size_membership :
  get_body_text_style [] = Ok (12, "")
  /\ forall blocks : list Block,
       blocks <> [] ->
       exists b : Block,
         In b blocks /\ get_body_text_style blocks = Ok (font_size b, "").
Proof.
  split; [reflexivity|]. intros blocks Hne.
  destruct (get_body_text_style_first_max blocks Hne) as [kv [E [_ Hmax]]].
  apply first_max_first_mode in Hmax.
  destruct Hmax as [pre [post [Hs _]]].
  assert (Hin : In (fst kv) (map font_size blocks)).
  { unfold body_sizes in Hs.
    destruct (map font_size (filter _ blocks)) as [|x l] eqn:Ef.
    - rewrite Hs. apply in_elt.
    - assert (Hin : In (fst kv) (map font_size
                (filter (fun b => Qlt_bool (font_size b) 20) blocks)))
        by (rewrite Ef, Hs; apply in_elt).
      apply in_map_iff in Hin. destruct Hin as [b [Eb Hb]].
      apply filter_In in Hb. apply in_map_iff. exists b. tauto. }
  apply in_map_iff in Hin. destruct Hin as [b [Eb Hb]].
  exists b. split; [assumption|]. now rewrite Eb.
Qed.

(* ================================================================= *)
(** ** The assembler *)

Lemma get_body_text_style_total (blocks : list Block) :
  exists body_size, get_body_text_style blocks = Ok (body_size, "").
Proof.
  destruct blocks as [|b bs]; [now exists 12|].
  destruct (get_body_text_style_first_max (b :: bs)) as [kv [E _]];
    [discriminate | eauto].
Qed.

(** On a non-empty fragment list the assembler runs the three components
    in turn and none of them raises. *)
Lemma generate_outline_from_pdf_eq (doc : Doc) :
  extract_text_blocks doc None <> [] ->
  exists body_size hs ti secs,
    get_body_text_style (extract_text_blocks doc None) = Ok (body_size, "")
    /\ identify_and_classify_headings (extract_text_blocks doc None) body_size
       = Ok (hs, ti)
    /\ group_text_into_sections (extract_text_blocks doc None) hs = Ok secs
    /\ generate_outline_from_pdf (Opened doc) =
       Ok (OutlineResult
             match ti with Some t => title_text t | None => "Untitled" end
             (map (fun h => {| o_level := level h; o_text := h_text h;
                               o_page := h_page h |}) hs)
             secs).
Proof.
  intros Hne. unfold generate_outline_from_pdf, generate_outline_with.
  set (blocks := extract_text_blocks doc None) in *.
  destruct (get_body_text_style_total blocks) as [body_size Eb].
  destruct (identify_and_classify_headings_total blocks body_size)
    as [hs [ti Eh]].
  exists body_size, hs, ti. eexists.
  split; [exact Eb|]. split; [exact Eh|].
  split; [apply group_text_into_sections_eq|].
  destruct blocks as [|b bs]; [congruence|].
  rewrite Eb. cbn [bind fst]. rewrite Eh. cbn [bind fst snd].
  rewrite group_text_into_sections_eq. reflexivity.
Qed.

(** C8.  When opening raises, the result is the error shape whose message
    contains the cause, whatever the three components would do if called.
    When the document yields no fragment, the result is the empty outline,
    again whatever the components would do.  Otherwise the result has the
    success shape.  The estimator, the classifier and the partitioner
    return on every input. *)
Theorem result_shapes :
  (forall estimator classifier partitioner (e : string),
      generate_outline_with estimator classifier partitioner (OpenRaises e)
      = Ok (ErrorResult ("Could not open PDF: " ++ e))
      /\ occurs_in e ("Could not open PDF: " ++ e))
  /\ (forall estimator classifier partitioner (doc : Doc),
         extract_text_blocks doc None = [] ->
         generate_outline_with estimator classifier partitioner (Opened doc)
         = Ok (OutlineResult "" [] []))
  /\ (forall doc : Doc,
         extract_text_blocks doc None <> [] ->
         exists title outline sections,
           generate_outline_from_pdf (Opened doc)
           = Ok (OutlineResult title outline sections))
  /\ (forall blocks : list Block,
         exists r, get_body_text_style blocks = Ok r)
  /\ (forall (blocks : list Block) (body_size : Q),
         exists r, identify_and_classify_headings blocks body_size = Ok r)
  /\ (forall (blocks : list Block) (headings : list Heading),
         exists r, group_text_into_sections blocks headings = Ok r).
Proof.
  split; [|split; [|split; [|split; [|split]]]].
  - intros estimator classifier partitioner e. split; [reflexivity|].
    exists "Could not open PDF: ", "". now rewrite str_app_nil_r.
  - intros estimator classifier partitioner doc H.
    unfold generate_outline_with. now rewrite H.
  - intros doc H.
    destruct (generate_outline_from_pdf_eq doc H)
      as [body_size [hs [ti [secs [_ [_ [_ E]]]]]]].
    rewrite E. eauto.
  - intros blocks. destruct (get_body_text_style_total blocks) as [r E]. eauto.
  - intros blocks body_size.
    destruct (identify_and_classify_headings_total blocks body_size)
      as [hs [ti E]]. eauto.
  - intros blocks headings. rewrite group_text_into_sections_eq. eauto.
Qed.

(* ================================================================= *)
(** ** The title in the assembled result *)

Lemma no_first_page (blocks : list Block) :
  (forall b, In b blocks -> page b <> 1%Z) ->
  filter (fun b => (page b =? 1)%Z) blocks = [].
Proof.
  intros H. induction blocks as [|b bs IH]; [reflexivity|]. simpl.
  destruct (page b =? 1)%Z eqn:E.
  - apply Z.eqb_eq in E. exfalso. apply (H b); [now left | assumption].
  - apply IH. intros b' Hb'. apply H. now right.
Qed.

Lemma some_first_page (blocks : list Block) :
  (exists b, In b blocks /\ page b = 1%Z) ->
  filter (fun b => (page b =? 1)%Z) blocks <> [].
Proof.
  intros [b [Hb Hp]] E.
  assert (Hin : In b (filter (fun b => (page b =? 1)%Z) blocks)).
  { apply filter_In. split; [assumption | now apply Z.eqb_eq]. }
  rewrite E in Hin. destruct Hin.
Qed.

(** C5, as the code has it.  When some fragment is on page 1, the title is
    the text of the first fragment in stream order among the page-1
    fragments of greatest font size, with page 1.  When none is, the title
    info is absent, and the assembled title of a document with at least one
    fragment is "Untitled"; the assembled title of a document without
    fragments is the empty string. *)
Theorem title_selection :
  forall (blocks : list Block) (body_size : Q),
    ((exists b0, In b0 blocks /\ page b0 = 1%Z) ->
     exists (pre : list Block) (b : Block) (post : list Block)
            (hs : list Heading),
       blocks = (pre ++ b :: post)%list
       /\ page b = 1%Z
       /\ (forall b', In b' blocks -> page b' = 1%Z ->
                      font_size b' <= font_size b)
       /\ (forall b', In b' pre -> page b' = 1%Z ->
                      font_size b' < font_size b)
       /\ identify_and_classify_headings blocks body_size =
          Ok (hs, Some {| title_text := text b; title_page := 1 |}))
    /\ ((forall b0, In b0 blocks -> page b0 <> 1%Z) ->
        (exists hs, identify_and_classify_headings blocks body_size
                    = Ok (hs, None))
        /\ (blocks <> [] ->
            forall doc : Doc,
              extract_text_blocks doc None = blocks ->
              exists outline sections,
                generate_outline_from_pdf (Opened doc)
                = Ok (OutlineResult "Untitled" outline sections)))
    /\ (blocks = [] ->
        forall doc : Doc,
          extract_text_blocks doc None = blocks ->
          generate_outline_from_pdf (Opened doc) = Ok (OutlineResult "" [] [])).
Proof.
  intros blocks body_size. split; [|split];
    [| |intros -> doc Hdoc;
        unfold generate_outline_from_pdf, generate_outline_with;
        now rewrite Hdoc].
  - intros H1. apply some_first_page in H1.
    destruct (select_title_first_largest blocks H1)
      as [pre [b [post [E [Hp [Hmax [Hfirst Ht]]]]]]].
    destruct (identify_title blocks body_size _ Ht) as [hs Hi].
    exists pre, b, post, hs. auto.
  - intros H1. apply no_first_page, select_title_absent in H1. split.
    + now apply identify_title.
    + intros Hne doc Hdoc. subst blocks.
      destruct (generate_outline_from_pdf_eq doc Hne)
        as [bsz [hs [ti [secs [_ [Eh [_ E]]]]]]].
      apply identify_and_classify_headings_eq in Eh. destruct Eh as [Et _].
      rewrite H1 in Et. injection Et as <-. rewrite E. eauto.
Qed.

(** C5, as stated, fails on a document without fragments: no fragment is
    on page 1, the title info is absent, and the assembled title is the
    empty string. *)
Lemma title_selection_counterexample :
  extract_text_blocks [] None = []
  /\ (forall b0, In b0 (extract_text_blocks [] None) -> page b0 <> 1%Z)
  /\ select_title (extract_text_blocks [] None) = Ok None
  /\ generate_outline_from_pdf (Opened []) = Ok (OutlineResult "" [] [])
  /\ "" <> "Untitled".
Proof.
  split; [reflexivity|]. split; [intros b0 []|].
  split; [reflexivity|]. split; [reflexivity | discriminate].
Qed.

(* ================================================================= *)
(** ** The worked example *)

Lemma worked_example_candidates (regular bold : string) :
  str_in "bold" (lower regular) = false ->
  str_in "bold" (lower bold) = true ->
  collect_candidates
    (Some {| title_text := "1. Background"; title_page := 1 |}) 12
    (worked_example regular bold)
  = [ {| text := "1.1 Detail"; font_size := 16; font_name := bold;
         page := 1; y_pos := 120 |} ].
Proof.
  intros Hr Hb. rewrite collect_candidates_filter. unfold worked_example.
  cbn [filter]. rewrite !heading_score_sum. cbn [text font_size font_name].
  rewrite Hr, Hb. reflexivity.
Qed.

(** C6, as the code has it.  With body size 12 the largest fragment of
    page 1, "1. Background", is selected as the title and skipped by the
    classifier; the headings are "1.1 Detail" alone, at level H1, and the
    one section holds "more body". *)
Theorem worked_example_outline :
  forall regular bold : string,
    str_in "bold" (lower regular) = false ->
    str_in "bold" (lower bold) = true ->
    get_body_text_style (worked_example regular bold) = Ok (12, "")
    /\ identify_and_classify_headings (worked_example regular bold) 12 =
       Ok ([ {| level := "H1"; h_text := "1.1 Detail"; h_page := 1;
                h_y_pos := 120 |} ],
           Some {| title_text := "1. Background"; title_page := 1 |})
    /\ group_text_into_sections (worked_example regular bold)
         [ {| level := "H1"; h_text := "1.1 Detail"; h_page := 1;
              h_y_pos := 120 |} ] =
       Ok [ {| heading_text := "1.1 Detail"; heading_level := "H1";
               s_page := 1; content := "more body" |} ].
Proof.
  intros regular bold Hr Hb. split; [reflexivity|]. split; [|reflexivity].
  unfold identify_and_classify_headings.
  change (select_title (worked_example regular bold))
    with (Ok (A := option TitleInfo)
             (Some {| title_text := "1. Background"; title_page := 1 |})).
  cbn [bind]. rewrite (worked_example_candidates regular bold Hr Hb).
  reflexivity.
Qed.

Lemma worked_example_outline_witness :
  get_body_text_style (worked_example "Helvetica" "Helvetica-Bold")
  = Ok (12, "")
  /\ identify_and_classify_headings
       (worked_example "Helvetica" "Helvetica-Bold") 12 =
     Ok ([ {| level := "H1"; h_text := "1.1 Detail"; h_page := 1;
              h_y_pos := 120 |} ],
         Some {| title_text := "1. Background"; title_page := 1 |})
  /\ group_text_into_sections (worked_example "Helvetica" "Helvetica-Bold")
       [ {| level := "H1"; h_text := "1.1 Detail"; h_page := 1;
            h_y_pos := 120 |} ] =
     Ok [ {| heading_text := "1.1 Detail"; heading_level := "H1";
             s_page := 1; content := "more body" |} ].
Proof.
  apply (worked_example_outline "Helvetica" "Helvetica-Bold"); reflexivity.
Defined.

(** C6, as stated, fails: the classifier does not return the two headings
    "1. Background" (H1) and "1.1 Detail" (H2). *)
Lemma worked_example_counterexample :
  exists (hs : list Heading) (ti : option TitleInfo),
    identify_and_classify_headings
      (worked_example "Helvetica" "Helvetica-Bold") 12 = Ok (hs, ti)
    /\ hs <> [ {| level := "H1"; h_text := "1. Background"; h_page := 1;
                  h_y_pos := 50 |};
               {| level := "H2"; h_text := "1.1 Detail"; h_page := 1;
                  h_y_pos := 120 |} ]
    /\ exists secs,
         group_text_into_sections
           (worked_example "Helvetica" "Helvetica-Bold") hs = Ok secs
         /\ secs <> [ {| heading_text := "1. Background";
                         heading_level := "H1"; s_page := 1;
                         content := "body text here" |};
                      {| heading_text := "1.1 Detail";
                         heading_level := "H2"; s_page := 1;
                         content := "more body" |} ].
Proof.
  eexists. eexists. split; [reflexivity|]. split; [discriminate|].
  eexists. split; [reflexivity | discriminate].
Qed.

(* ================================================================= *)
(** ** Evaluation on the example documents *)

Example four_sizes_headings :
  identify_and_classify_headings four_sizes_blocks 10 =
  Ok ([ {| level := "H1"; h_text := "A. First part"; h_page := 1;
           h_y_pos := 50 |};
        {| level := "H3"; h_text := "1.1 Details"; h_page := 1;
           h_y_pos := 200 |};
        {| level := "H2"; h_text := "B. Second part"; h_page := 2;
           h_y_pos := 100 |} ],
      Some {| title_text := "Handbook"; title_page := 1 |}).
Proof. reflexivity. Qed.

Example four_sizes_candidate_sizes :
  candidate_sizes
    (collect_candidates (Some {| title_text := "Handbook"; title_page := 1 |})
                        10 four_sizes_blocks)
  = [20; 14; 12; 11].
Proof. reflexivity. Qed.

Example mode_tie_first_occurrence :
  statistics_mode [10; 12; 12; 10] = Ok 10
  /\ statistics_mode_legacy [10; 12; 12; 10] = Raise StatisticsError.
Proof. split; reflexivity. Qed.

Example body_style_on_tie :
  let blocks :=
    map (fun s => {| text := "t"; font_size := s; font_name := "Serif";
                     page := 1; y_pos := 0 |}) [10; 12; 12; 10; 24] in
  get_body_text_style blocks = Ok (10, "")
  /\ get_body_text_style_with statistics_mode_legacy blocks = Ok (10, "").
Proof. split; reflexivity. Qed.

Example body_style_all_large :
  let blocks :=
    map (fun s => {| text := "t"; font_size := s; font_name := "Serif";
                     page := 1; y_pos := 0 |}) [24; 30; 30] in
  get_body_text_style blocks = Ok (30, "").
Proof. reflexivity. Qed.

Example title_largest_of_first_page :
  let blocks :=
    map (fun s => {| text := fst s; font_size := snd s; font_name := "Serif";
                     page := 1; y_pos := 0 |})
        [("a", 14); ("b", 24); ("c", 14); ("d", 24)] in
  select_title blocks = Ok (Some {| title_text := "b"; title_page := 1 |}).
Proof. reflexivity. Qed.

Example blank_first_page_fragments :
  extract_text_blocks blank_first_page_doc None =
  [ {| text := "Hello"; font_size := 12; font_name := "Helvetica";
       page := 2; y_pos := 40 |} ].
Proof. reflexivity. Qed.

Example blank_first_page_untitled :
  generate_outline_from_pdf (Opened blank_first_page_doc) =
  Ok (OutlineResult "Untitled" [] []).
Proof. reflexivity. Qed.

Example open_failure :
  generate_outline_from_pdf (OpenRaises "no such file") =
  Ok (ErrorResult "Could not open PDF: no such file").
Proof. reflexivity. Qed.

Example same_line_sections :
  group_text_into_sections same_line_blocks
    [ {| level := "H1"; h_text := "1. Intro"; h_page := 1; h_y_pos := 50 |} ]
  = Ok [ {| heading_text := "1. Intro"; heading_level := "H1"; s_page := 1;
            content := "body text" |} ].
Proof. reflexivity. Qed.

(* ================================================================= *)
(** ** [str.strip] *)

Lemma lstrip_head (s : string) :
  lstrip s = "" \/ exists c t, lstrip s = String c t /\ is_space c = false.
Proof.
  induction s as [|c s IH]; simpl; [now left|].
  destruct (is_space c) eqn:E; [exact IH|]. right. eauto.
Qed.

Lemma rstrip_idempotent (s : string) : rstrip (rstrip s) = rstrip s.
Proof.
  induction s as [|c s IH]; [reflexivity|]. cbn [rstrip].
  destruct (is_space c && str_empty (rstrip s)) eqn:E; [reflexivity|].
  cbn [rstrip]. now rewrite IH, E.
Qed.

Lemma strip_no_edge_space (s : string) :
  lstrip (strip s) = strip s /\ rstrip (strip s) = strip s.
Proof.
  unfold strip. split; [|apply rstrip_idempotent].
  destruct (lstrip_head s) as [->|[c [t [-> Hc]]]]; [reflexivity|].
  cbn [rstrip]. rewrite Hc. cbn [andb lstrip]. now rewrite Hc.
Qed.

Lemma strip_idempotent (s : string) : strip (strip s) = strip s.
Proof.
  destruct (strip_no_edge_space s) as [Hl Hr].
  unfold strip at 1. now rewrite Hl, Hr.
Qed.

(* ================================================================= *)
(** ** The fragment stream *)

Lemma span_fragment_spec (page_num : nat) (span : Span) (b : Block) :
  In b (span_fragment page_num span) ->
  text b <> "" /\ strip (text b) = text b
  /\ page b = (Z.of_nat page_num + 1)%Z
  /\ font_size b = span_size span /\ font_name b = span_font span.
Proof.
  unfold span_fragment.
  destruct (str_empty (strip _)) eqn:E; [intros []|].
  destruct (span_bbox span) as [[[x0 y0] x1] y1].
  intros [<-|[]]. cbn [text page font_size font_name].
  repeat split; [|apply strip_idempotent].
  intros H. rewrite H in E. discriminate.
Qed.

Lemma page_fragments_spec (page_num : nat) (p : Page) (b : Block) :
  In b (flat_map (block_fragments page_num) (page_blocks p)) ->
  text b <> "" /\ strip (text b) = text b
  /\ page b = (Z.of_nat page_num + 1)%Z.
Proof.
  intros H. apply in_flat_map in H. destruct H as [blk [_ H]].
  unfold block_fragments in H. apply in_flat_map in H. destruct H as [ln [_ H]].
  unfold line_fragments in H. apply in_flat_map in H. destruct H as [sp [_ H]].
  apply span_fragment_spec in H. tauto.
Qed.

Lemma pages_fragments_spec (pages : list Page) (page_num : nat) (b : Block) :
  In b (pages_fragments page_num pages) ->
  text b <> "" /\ strip (text b) = text b
  /\ (Z.of_nat page_num + 1 <= page b
      <= Z.of_nat page_num + Z.of_nat (List.length pages))%Z.
Proof.
  revert page_num; induction pages as [|p ps IH]; intros page_num H; [destruct H|].
  cbn [pages_fragments] in H. apply in_app_or in H. destruct H as [H|H].
  - apply page_fragments_spec in H. cbn [List.length]. intuition lia.
  - apply IH in H. cbn [List.length]. intuition lia.
Qed.

Lemma strongly_sorted_app {A : Type} (R : A -> A -> Prop) (l1 l2 : list A) :
  StronglySorted R l1 -> StronglySorted R l2 ->
  (forall x y, In x l1 -> In y l2 -> R x y) ->
  StronglySorted R (l1 ++ l2).
Proof.
  induction 1 as [|x l1 Hs IH Hall]; intros H2 Hc; [exact H2|].
  simpl. constructor.
  - apply IH; [assumption|]. intros a c Ha Hc'. apply Hc; [now right | assumption].
  - rewrite Forall_forall in *. intros y Hy. apply in_app_or in Hy.
    destruct Hy as [Hy|Hy]; [auto|]. apply Hc; [now left | assumption].
Qed.

Lemma strongly_sorted_const {A : Type} (R : A -> A -> Prop) (l : list A) :
  (forall x y, In x l -> In y l -> R x y) -> StronglySorted R l.
Proof.
  induction l as [|x l IH]; intros H; constructor.
  - apply IH. intros a c Ha Hc. apply H; now right.
  - rewrite Forall_forall. intros y Hy. apply H; [now left | now right].
Qed.

Lemma pages_fragments_sorted (pages : list Page) (page_num : nat) :
  StronglySorted (fun b1 b2 => (page b1 <= page b2)%Z)
                 (pages_fragments page_num pages).
Proof.
  revert page_num; induction pages as [|p ps IH]; intros page_num; [constructor|].
  cbn [pages_fragments]. apply strongly_sorted_app.
  - apply strongly_sorted_const. intros x y Hx Hy.
    apply page_fragments_spec in Hx, Hy. lia.
  - apply IH.
  - intros x y Hx Hy. apply page_fragments_spec in Hx.
    apply pages_fragments_spec in Hy. lia.
Qed.

Lemma filter_none {A : Type} (f : A -> bool) (l : list A) :
  (forall x, In x l -> f x = false) -> filter f l = [].
Proof.
  induction l as [|x l IH]; intros H; [reflexivity|]. simpl.
  rewrite (H x) by now left. apply IH. intros y Hy. apply H. now right.
Qed.

Lemma filter_all {A : Type} (f : A -> bool) (l : list A) :
  (forall x, In x l -> f x = true) -> filter f l = l.
Proof.
  induction l as [|x l IH]; intros H; [reflexivity|]. simpl.
  rewrite (H x) by now left. f_equal. apply IH. intros y Hy. apply H. now right.
Qed.

Lemma pages_fragments_firstn (pages : list Page) (page_num k : nat) :
  pages_fragments page_num (firstn k pages) =
  filter (fun b => (page b <=? Z.of_nat page_num + Z.of_nat k)%Z)
         (pages_fragments page_num pages).
Proof.
  revert page_num k; induction pages as [|p ps IH]; intros page_num k.
  - now rewrite firstn_nil.
  - destruct k as [|k].
    + cbn [firstn pages_fragments]. symmetry. apply filter_none.
      intros b Hb. apply (pages_fragments_spec (p :: ps)) in Hb.
      apply Z.leb_gt. lia.
    + cbn [firstn pages_fragments]. rewrite filter_app, IH. f_equal.
      * symmetry. apply filter_all. intros b Hb.
        apply page_fragments_spec in Hb. apply Z.leb_le. lia.
      * apply filter_ext. intros b. f_equal. lia.
Qed.

(** X1.  Every fragment of the stream has a non-empty text without leading
    or trailing whitespace, and a page number between 1 and the number of
    pages read. *)
Theorem extracted_fragments_wellformed :
  forall (doc : Doc) (page_limit : option nat) (b : Block),
    In b (extract_text_blocks doc page_limit) ->
    text b <> ""
    /\ strip (text b) = text b
    /\ (1 <= page b)%Z
    /\ (page b <= Z.of_nat (List.length doc))%Z
    /\ (forall k, page_limit = Some k -> (page b <= Z.of_nat k)%Z).
Proof.
  intros doc page_limit b H. unfold extract_text_blocks in H.
  apply pages_fragments_spec in H. rewrite length_firstn in H.
  destruct H as [Ht [Hs Hp]].
  split; [assumption|]. split; [assumption|]. split; [lia|]. split.
  - destruct page_limit; cbv beta iota zeta in Hp; lia.
  - intros k ->. cbv beta iota zeta in Hp. lia.
Qed.

Lemma extracted_fragments_wellformed_witness :
  text {| text := "Hello"; font_size := 12; font_name := "Helvetica";
          page := 2; y_pos := 40 |} <> ""
  /\ strip "Hello" = "Hello"
  /\ (1 <= 2)%Z
  /\ (2 <= Z.of_nat (List.length blank_first_page_doc))%Z
  /\ (forall k, @None nat = Some k -> (2 <= Z.of_nat k)%Z).
Proof.
  apply (extracted_fragments_wellformed blank_first_page_doc None
           {| text := "Hello"; font_size := 12; font_name := "Helvetica";
              page := 2; y_pos := 40 |}).
  vm_compute. now left.
Defined.

(** X2.  The stream lists the fragments page by page: page numbers never
    decrease along it. *)
Theorem extracted_fragments_page_order :
  forall (doc : Doc) (page_limit : option nat),
    StronglySorted (fun b1 b2 => (page b1 <= page b2)%Z)
                   (extract_text_blocks doc page_limit).
Proof. intros doc page_limit. apply pages_fragments_sorted. Qed.

(** X3.  Reading with a page limit [k] gives exactly the fragments of the
    full stream whose page is at most [k], in the same order; a limit of at
    least the number of pages changes nothing. *)
Theorem extraction_page_limit :
  forall (doc : Doc) (k : nat),
    extract_text_blocks doc (Some k) =
    filter (fun b => (page b <=? Z.of_nat k)%Z) (extract_text_blocks doc None)
    /\ ((List.length doc <= k)%nat ->
        extract_text_blocks doc (Some k) = extract_text_blocks doc None).
Proof.
  intros doc k. unfold extract_text_blocks.
  assert (E : firstn (Nat.min (List.length doc) k) doc = firstn k doc).
  { destruct (Nat.le_ge_cases (List.length doc) k) as [H|H].
    - rewrite Nat.min_l by assumption.
      now rewrite firstn_all, firstn_all2 by assumption.
    - now rewrite Nat.min_r by assumption. }
  rewrite E, firstn_all. split.
  - apply pages_fragments_firstn.
  - intros H. now rewrite firstn_all2.
Qed.

(* ================================================================= *)
(** ** More on the body size *)

(** X4.  When some fragment is smaller than 20 the body size is smaller
    than 20; when none is, the body size is at least 20. *)
Theorem body_size_cutoff :
  forall blocks : list Block,
    blocks <> [] ->
    exists body_size : Q,
      get_body_text_style blocks = Ok (body_size, "")
      /\ ((exists b, In b blocks /\ font_size b < 20) -> body_size < 20)
      /\ ((forall b, In b blocks -> 20 <= font_size b) -> 20 <= body_size).
Proof.
  intros blocks Hne.
  destruct (get_body_text_style_first_max blocks Hne) as [kv [E [_ Hmax]]].
  exists (fst kv). split; [exact E|].
  apply first_max_first_mode in Hmax. destruct Hmax as [pre [post [Hs _]]].
  assert (Hin : In (fst kv) (body_sizes blocks)) by (rewrite Hs; apply in_elt).
  clear Hs. unfold body_sizes in Hin. split.
  - intros [b [Hb Hlt]].
    destruct (map font_size (filter _ blocks)) as [|x l] eqn:Ef.
    + exfalso.
      assert (Hb' : In (font_size b)
                (map font_size
                   (filter (fun b => Qlt_bool (font_size b) 20) blocks))).
      { apply in_map, filter_In. split; [assumption | now apply Qlt_bool_iff]. }
      rewrite Ef in Hb'. destruct Hb'.
    + rewrite <- Ef in Hin. apply in_map_iff in Hin.
      destruct Hin as [b' [<- Hb']]. apply filter_In in Hb'.
      now apply Qlt_bool_iff.
  - intros Hall.
    destruct (map font_size (filter _ blocks)) as [|x l] eqn:Ef.
    + apply in_map_iff in Hin. destruct Hin as [b' [<- Hb']]. auto.
    + exfalso.
      assert (Hx : In x (map font_size
                   (filter (fun b => Qlt_bool (font_size b) 20) blocks)))
        by (rewrite Ef; now left).
      apply in_map_iff in Hx. destruct Hx as [b' [_ Hb']].
      apply filter_In in Hb'. destruct Hb' as [Hb' Hlt].
      apply Qlt_bool_iff in Hlt. specialize (Hall b' Hb'). lra.
Qed.

Lemma body_size_cutoff_witness :
  exists body_size : Q,
    get_body_text_style same_line_blocks = Ok (body_size, "")
    /\ ((exists b, In b same_line_blocks /\ font_size b < 20) ->
        body_size < 20)
    /\ ((forall b, In b same_line_blocks -> 20 <= font_size b) ->
        20 <= body_size).
Proof. apply (body_size_cutoff same_line_blocks). discriminate. Defined.

(* ================================================================= *)
(** ** More on the classifier *)

Lemma heading_score_range (body_size : Q) (b : Block) :
  (0 <= heading_score body_size b <= 10)%Z.
Proof.
  rewrite heading_score_sum.
  destruct (Qlt_bool _ _), (str_in _ _), (re_match _ _), (_ <? 15)%nat,
    (isupper _ && _); lia.
Qed.

(** X5.  The score lies between 0 and 10, and a fragment whose text starts
    with an enumeration label is a candidate whatever its font and length,
    unless it is skipped as the title. *)
Theorem enumerated_fragments_are_candidates :
  forall (title_info : option TitleInfo) (body_size : Q)
         (blocks : list Block),
    (forall b : Block, (0 <= heading_score body_size b <= 10)%Z)
    /\ (forall b : Block,
           In b blocks ->
           leading_enumeration (text b) ->
           is_title title_info b = false ->
           In b (collect_candidates title_info body_size blocks)).
Proof.
  intros title_info body_size blocks. split; [apply heading_score_range|].
  intros b Hb He Ht. apply In_collect_candidates.
  split; [assumption|]. split; [assumption|].
  apply heading_pattern_match in He. rewrite heading_score_sum, He.
  destruct (Qlt_bool _ _), (str_in _ _), (_ <? 15)%nat, (isupper _ && _); lia.
Qed.

(** X6.  No returned heading carries, on page 1, the text of the returned
    title. *)
Theorem title_is_not_a_heading :
  forall (blocks : list Block) (body_size : Q),
  exists (hs : list Heading) (ti : option TitleInfo),
    identify_and_classify_headings blocks body_size = Ok (hs, ti)
    /\ forall (h : Heading) (t : TitleInfo),
         In h hs -> ti = Some t ->
         ~ (h_page h = 1%Z /\ h_text h = title_text t).
Proof.
  intros blocks body_size.
  destruct (identify_and_classify_headings_total blocks body_size)
    as [hs [ti H]].
  exists hs, ti. split; [exact H|]. intros h t Hh -> [Hp Ht].
  apply identify_and_classify_headings_eq in H. destruct H as [_ ->].
  rewrite sorted_In, In_leveled in Hh. destruct Hh as [b [Hb [_ Eh]]].
  apply In_collect_candidates in Hb. destruct Hb as [_ [Hnt _]].
  rewrite Eh in Hp, Ht. cbn [heading_of h_page h_text] in Hp, Ht.
  unfold is_title in Hnt. rewrite Hp, Ht, Z.eqb_refl, String.eqb_refl in Hnt.
  discriminate.
Qed.

Lemma candidate_sizes_nonempty (candidates : list Block) :
  candidates <> [] -> candidate_sizes candidates <> [].
Proof.
  intros Hne E.
  assert (Hl : List.length (candidate_sizes candidates) = 0%nat) by now rewrite E.
  unfold candidate_sizes in Hl. rewrite sorted_length in Hl.
  apply length_zero_iff_nil in Hl. revert Hl. apply py_set_nonempty.
  destruct candidates; [congruence | discriminate].
Qed.

(** A size of the descending list that is among the first three has a
    candidate, hence a heading, at its level. *)
Lemma level_has_heading (candidates : list Block) (i : nat) (s : Q) :
  nth_error (candidate_sizes candidates) i = Some s -> (i < 3)%nat ->
  exists h, In h (leveled (candidate_sizes candidates) candidates)
            /\ level h = "H" ++ str_of_nat (i + 1).
Proof.
  intros Hi Hlt.
  destruct (candidate_sizes_In candidates s) as [b [Hb Eb]];
    [eapply nth_error_In; eauto|].
  exists (heading_of ("H" ++ str_of_nat (i + 1)) b). split; [|reflexivity].
  apply In_leveled. exists b. split; [assumption|]. split; [|reflexivity].
  cbn [level heading_of].
  rewrite (level_of_rank _ _ (candidate_sizes_descending candidates) i s Hi)
    by (rewrite Eb; reflexivity).
  apply Nat.ltb_lt in Hlt. now rewrite Hlt.
Qed.

(** X7.  The heading list is empty exactly when there is no candidate.
    Levels are used from the top: a non-empty heading list has an H1
    heading, an H3 heading comes with an H2 heading. *)
Theorem heading_levels_from_the_top :
  forall (blocks : list Block) (body_size : Q),
  exists (hs : list Heading) (ti : option TitleInfo),
    identify_and_classify_headings blocks body_size = Ok (hs, ti)
    /\ (hs = [] <-> collect_candidates ti body_size blocks = [])
    /\ (hs <> [] -> exists h, In h hs /\ level h = "H1")
    /\ ((exists h, In h hs /\ level h = "H3") ->
        exists h, In h hs /\ level h = "H2").
Proof.
  intros blocks body_size.
  destruct (identify_and_classify_headings_total blocks body_size)
    as [hs [ti H]].
  exists hs, ti. split; [exact H|].
  apply identify_and_classify_headings_eq in H. destruct H as [_ Hhs].
  set (candidates := collect_candidates ti body_size blocks) in *.
  assert (Hin : forall h, In h hs <->
                          In h (leveled (candidate_sizes candidates) candidates))
    by (intros h; rewrite Hhs; apply sorted_In).
  assert (H1 : candidates <> [] -> exists h, In h hs /\ level h = "H1").
  { intros Hne.
    destruct (candidate_sizes candidates) as [|s1 rest] eqn:Es;
      [now apply candidate_sizes_nonempty in Hne|].
    destruct (level_has_heading candidates 0 s1) as [h [Hh Hl]];
      [now rewrite Es | lia |].
    rewrite Es in Hh. exists h. split; [now apply Hin | exact Hl]. }
  split; [|split].
  - split.
    + intros E. destruct candidates as [|c cs] eqn:Ec; [reflexivity|].
      destruct H1 as [h [Hh _]]; [discriminate|]. rewrite E in Hh. destruct Hh.
    + intros E. rewrite Hhs, E. reflexivity.
  - intros Hne. apply H1. intros E. apply Hne. rewrite Hhs, E. reflexivity.
  - intros [h [Hh Hl]]. apply Hin, In_leveled in Hh.
    destruct Hh as [b [_ [Hlv _]]]. rewrite Hl in Hlv.
    destruct (candidate_sizes candidates) as [|s1 [|s2 rest]] eqn:Es.
    + discriminate.
    + simpl in Hlv. destruct (Qeq_bool s1 (font_size b)); discriminate.
    + destruct (level_has_heading candidates 1 s2) as [h2 [Hh2 Hl2]];
        [now rewrite Es | lia |].
      rewrite Es in Hh2. exists h2. split; [now apply Hin | exact Hl2].
Qed.

Lemma level_of_Qeq (sizes : list Q) (x y : Q) :
  x == y -> level_of sizes x = level_of sizes y.
Proof.
  intros E.
  assert (H : forall s, Qeq_bool s x = Qeq_bool s y).
  { intros s. destruct (Qeq_bool s x) eqn:Ex, (Qeq_bool s y) eqn:Ey;
      try reflexivity.
    - apply Qeq_bool_iff in Ex. apply Qeq_bool_false in Ey.
      exfalso. apply Ey. now rewrite Ex.
    - apply Qeq_bool_iff in Ey. apply Qeq_bool_false in Ex.
      exfalso. apply Ex. now rewrite Ey. }
  unfold level_of. destruct sizes as [|s1 [|s2 [|s3 rest]]];
    now rewrite ?H.
Qed.

Lemma level_of_order (sizes : list Q) (x y : Q) (lx ly : string) :
  StronglySorted (fun a b => b < a) sizes ->
  level_of sizes x = Some lx -> level_of sizes y = Some ly -> y < x ->
  (lx = "H1" /\ (ly = "H2" \/ ly = "H3")) \/ (lx = "H2" /\ ly = "H3").
Proof.
  intros Hs Hx Hy Hlt. unfold level_of in Hx, Hy.
  destruct sizes as [|s1 rest]; [discriminate|].
  apply StronglySorted_inv in Hs. destruct Hs as [Hs H1].
  rewrite Forall_forall in H1.
  destruct (Qeq_bool s1 x) eqn:X1; destruct (Qeq_bool s1 y) eqn:Y1;
    try (apply Qeq_bool_iff in X1); try (apply Qeq_bool_iff in Y1);
    try (injection Hx as <-); try (injection Hy as <-).
  - lra.
  - destruct rest as [|s2 rest]; [discriminate|].
    destruct (Qeq_bool s2 y); [injection Hy as <-; auto|].
    destruct rest as [|s3 rest]; [discriminate|].
    destruct (Qeq_bool s3 y); [injection Hy as <-; auto | discriminate].
  - destruct rest as [|s2 rest]; [discriminate|].
    assert (s2 < s1) by (apply H1; now left).
    destruct (Qeq_bool s2 x) eqn:X2.
    + apply Qeq_bool_iff in X2. lra.
    + destruct rest as [|s3 rest]; [discriminate|].
      assert (s3 < s1) by (apply H1; right; now left).
      destruct (Qeq_bool s3 x) eqn:X3; [|discriminate].
      apply Qeq_bool_iff in X3. lra.
  - destruct rest as [|s2 rest]; [discriminate|].
    apply StronglySorted_inv in Hs. destruct Hs as [Hs H2].
    rewrite Forall_forall in H2.
    destruct (Qeq_bool s2 x) eqn:X2; destruct (Qeq_bool s2 y) eqn:Y2;
      try (apply Qeq_bool_iff in X2); try (apply Qeq_bool_iff in Y2);
      try (injection Hx as <-); try (injection Hy as <-).
    + lra.
    + destruct rest as [|s3 rest]; [discriminate|].
      destruct (Qeq_bool s3 y); [injection Hy as <-; auto | discriminate].
    + destruct rest as [|s3 rest]; [discriminate|].
      assert (s3 < s2) by (apply H2; now left).
      destruct (Qeq_bool s3 x) eqn:X3; [|discriminate].
      apply Qeq_bool_iff in X3. lra.
    + destruct rest as [|s3 rest]; [discriminate|].
      destruct (Qeq_bool s3 x) eqn:X3; [|discriminate].
      destruct (Qeq_bool s3 y) eqn:Y3; [|discriminate].
      apply Qeq_bool_iff in X3, Y3. lra.
Qed.

(** X8.  Levels follow the font size over all three levels: source
    fragments of equal font size give headings of equal level, and a
    strictly larger source fragment gives a strictly higher level (H1 above
    H2 above H3). *)
Theorem levels_follow_font_size :
  forall (blocks : list Block) (body_size : Q),
  exists (hs : list Heading) (ti : option TitleInfo),
    identify_and_classify_headings blocks body_size = Ok (hs, ti)
    /\ let candidates := collect_candidates ti body_size blocks in
       let sizes := candidate_sizes candidates in
       forall h1 h2 b1 b2,
         In h1 hs -> In h2 hs ->
         source_of sizes candidates h1 b1 ->
         source_of sizes candidates h2 b2 ->
         (font_size b1 == font_size b2 -> level h1 = level h2)
         /\ (font_size b2 < font_size b1 ->
             (level h1 = "H1" /\ (level h2 = "H2" \/ level h2 = "H3"))
             \/ (level h1 = "H2" /\ level h2 = "H3")).
Proof.
  intros blocks body_size.
  destruct (identify_and_classify_headings_total blocks body_size)
    as [hs [ti H]].
  exists hs, ti. split; [exact H|]. intros candidates sizes.
  intros h1 h2 b1 b2 _ _ [_ [L1 _]] [_ [L2 _]]. split.
  - intros E. rewrite (level_of_Qeq sizes _ _ E) in L1. congruence.
  - intros Hlt.
    exact (level_of_order sizes _ _ _ _
             (candidate_sizes_descending candidates) L1 L2 Hlt).
Qed.

(* ================================================================= *)
(** ** Stability of [sorted] *)

Lemma sorted_insert_split {A : Type} (le : A -> A -> bool) (a : A)
  (l : list A) :
  exists pre post : list A,
    l = (pre ++ post)%list
    /\ sorted_insert le a l = (pre ++ a :: post)%list
    /\ forall y, In y pre -> le a y = false.
Proof.
  induction l as [|x l IH]; simpl.
  - exists [], []. repeat split. intros y [].
  - destruct (le a x) eqn:E.
    + exists [], (x :: l). repeat split. intros y [].
    + destruct IH as [pre [post [-> [-> Hpre]]]].
      exists (x :: pre), post. repeat split. intros y [<-|Hy]; auto.
Qed.

(** Elements among which [le] always holds keep their input order. *)
Lemma sorted_stable {A : Type} (le : A -> A -> bool) (p : A -> bool)
  (l : list A) :
  (forall a y, p a = true -> p y = true -> le a y = true) ->
  filter p (sorted le l) = filter p l.
Proof.
  intros Hp. induction l as [|a l IH]; [reflexivity|]. cbn [sorted].
  destruct (sorted_insert_split le a (sorted le l))
    as [pre [post [El [-> Hpre]]]].
  rewrite El in IH. rewrite filter_app in *. cbn [filter].
  destruct (p a) eqn:Ea.
  - rewrite <- IH. rewrite (filter_none p pre); [reflexivity|].
    intros y Hy. destruct (p y) eqn:Ey; [|reflexivity].
    specialize (Hpre y Hy). rewrite (Hp a y Ea Ey) in Hpre. discriminate.
  - exact IH.
Qed.

(** X9.  Headings that share a position (page, y_pos) appear in the order
    of their source fragments in the stream. *)
Theorem headings_at_one_position_keep_stream_order :
  forall (blocks : list Block) (body_size : Q),
  exists (hs : list Heading) (ti : option TitleInfo),
    identify_and_classify_headings blocks body_size = Ok (hs, ti)
    /\ let candidates := collect_candidates ti body_size blocks in
       forall (pg : Z) (y : Q),
         filter (fun h => (h_page h =? pg)%Z && Qeq_bool (h_y_pos h) y) hs =
         filter (fun h => (h_page h =? pg)%Z && Qeq_bool (h_y_pos h) y)
                (leveled (candidate_sizes candidates) candidates).
Proof.
  intros blocks body_size.
  destruct (identify_and_classify_headings_total blocks body_size)
    as [hs [ti H]].
  exists hs, ti. split; [exact H|]. intros candidates pg y.
  apply identify_and_classify_headings_eq in H. destruct H as [_ ->].
  apply sorted_stable. intros a c Ha Hc.
  apply andb_true_iff in Ha, Hc. destruct Ha as [Pa Ya], Hc as [Pc Yc].
  apply Z.eqb_eq in Pa, Pc. apply Qeq_bool_iff in Ya, Yc.
  apply heading_key_le_iff. right. split; [congruence|].
  rewrite Ya, Yc. apply Qle_refl.
Qed.

(* ================================================================= *)
(** ** More on the sections *)

(** X10.  A fragment strictly before the first heading, in the order of
    (page, y_pos), belongs to no section: the text ahead of the first
    heading is left out of the sections. *)
Theorem text_before_first_heading_is_dropped :
  forall (blocks : list Block) (body_size : Q),
  exists (hs : list Heading) (ti : option TitleInfo),
    identify_and_classify_headings blocks body_size = Ok (hs, ti)
    /\ forall (h0 : Heading) (b : Block) (i : nat) (hi : Heading),
         hd_error hs = Some h0 ->
         strictly_before b (Some h0) ->
         nth_error hs i = Some hi ->
         ~ In b (section_blocks blocks hs i hi).
Proof.
  intros blocks body_size.
  destruct (identify_and_classify_headings_total blocks body_size)
    as [hs [ti H]].
  exists hs, ti. split; [exact H|].
  apply identify_and_classify_headings_eq in H. destruct H as [_ Hhs].
  assert (Hs : StronglySorted reading_order_le hs)
    by (rewrite Hhs; apply sorted_headings_order).
  intros h0 b i hi H0 Hb Hi Hin.
  apply In_section_blocks in Hin. destruct Hin as [_ [Hafter _]].
  assert (Hk : nth_error hs 0 = Some h0) by (destruct hs; simpl in *; congruence).
  apply (before_not_after_later b h0 hi Hb); [|assumption].
  destruct i as [|i].
  - rewrite Hk in Hi. injection Hi as <-.
    right. split; [reflexivity | apply Qle_refl].
  - apply (strongly_sorted_nth _ _ Hs 0%nat (S i)); [lia | assumption..].
Qed.

(** X11.  For any heading list, a heading whose successor in the list is
    not later in the order of (page, y_pos) gets a section with empty
    content. *)
Theorem section_of_unordered_pair_is_empty :
  forall (blocks : list Block) (headings : list Heading),
  exists sections : list Section_,
    group_text_into_sections blocks headings = Ok sections
    /\ forall (i : nat) (h h' : Heading),
         nth_error headings i = Some h ->
         nth_error headings (i + 1) = Some h' ->
         reading_order_le h' h ->
         nth_error sections i =
         Some {| heading_text := h_text h; heading_level := level h;
                 s_page := h_page h; content := "" |}.
Proof.
  intros blocks headings. eexists.
  split; [apply group_text_into_sections_eq|].
  intros i h h' Hi Hn Hle.
  rewrite nth_error_map, (nth_error_enumerate _ _ _ Hi). cbn [option_map fst snd].
  unfold section_at.
  replace (section_blocks blocks headings i h) with (@nil Block); [reflexivity|].
  symmetry. unfold section_blocks. apply filter_none. intros b _.
  destruct (in_section _ _ _ _ _ b) eqn:E; [|reflexivity]. exfalso.
  apply in_section_iff in E. destruct E as [Hafter [Hbefore _]].
  rewrite Hn in Hbefore.
  exact (before_not_after_later b h' h Hbefore Hle Hafter).
Qed.

(* ================================================================= *)
(** ** More on the assembled result *)

Lemma map_snd_enumerate {A : Type} (l : list A) : map snd (enumerate l) = l.
Proof.
  unfold enumerate. generalize 0%nat.
  induction l as [|x l IH]; intros k; [reflexivity|].
  simpl. now rewrite IH.
Qed.

Lemma generate_outline_from_pdf_empty (doc : Doc) :
  extract_text_blocks doc None = [] ->
  generate_outline_from_pdf (Opened doc) = Ok (OutlineResult "" [] []).
Proof.
  intros H. unfold generate_outline_from_pdf, generate_outline_with.
  now rewrite H.
Qed.

Lemma select_title_source (blocks : list Block) (t : TitleInfo) :
  select_title blocks = Ok (Some t) ->
  exists b, In b blocks /\ page b = 1%Z /\ title_text t = text b.
Proof.
  intros H.
  destruct (filter (fun b => (page b =? 1)%Z) blocks) as [|x l] eqn:Ef.
  - rewrite (select_title_absent blocks Ef) in H. discriminate.
  - destruct (select_title_first_largest blocks)
      as [pre [b [post [E [Hp [_ [_ Ht]]]]]]]; [rewrite Ef; discriminate|].
    rewrite Ht in H. injection H as <-. exists b.
    split; [rewrite E; apply in_elt | auto].
Qed.

(** X12.  In the assembled result the sections and the outline entries
    line up: there are as many of each, and the section at each index
    carries the level, text and page of the outline entry at that index. *)
Theorem sections_align_with_outline :
  forall doc : Doc,
  exists (title : string) (outline : list OutlineEntry)
         (sections : list Section_),
    generate_outline_from_pdf (Opened doc)
    = Ok (OutlineResult title outline sections)
    /\ List.length sections = List.length outline
    /\ map (fun s => (heading_level s, heading_text s, s_page s)) sections
       = map (fun o => (o_level o, o_text o, o_page o)) outline.
Proof.
  intros doc.
  destruct (extract_text_blocks doc None) as [|b0 bs] eqn:Eb.
  - exists "", [], []. split; [now apply generate_outline_from_pdf_empty|].
    split; reflexivity.
  - destruct (generate_outline_from_pdf_eq doc)
      as [body_size [hs [ti [secs [_ [_ [Es E]]]]]]]; [rewrite Eb; discriminate|].
    rewrite group_text_into_sections_eq in Es. injection Es as <-.
    do 3 eexists. split; [exact E|].
    assert (Hm : map (fun s => (heading_level s, heading_text s, s_page s))
                     (map (fun ih => section_at (extract_text_blocks doc None)
                                                hs (fst ih) (snd ih))
                          (enumerate hs))
                 = map (fun o => (o_level o, o_text o, o_page o))
                       (map (fun h => {| o_level := level h;
                                         o_text := h_text h;
                                         o_page := h_page h |}) hs)).
    { rewrite !map_map. cbn [section_at heading_level heading_text s_page
                             o_level o_text o_page].
      rewrite <- (map_snd_enumerate hs) at 2. now rewrite map_map. }
    split; [|exact Hm].
    now rewrite !length_map, enumerate_length.
Qed.

(** X13.  The assembled title is the empty string exactly when the
    document yields no fragment. *)
Theorem empty_title_means_no_fragments :
  forall doc : Doc,
  exists (title : string) (outline : list OutlineEntry)
         (sections : list Section_),
    generate_outline_from_pdf (Opened doc)
    = Ok (OutlineResult title outline sections)
    /\ (title = "" <-> extract_text_blocks doc None = []).
Proof.
  intros doc.
  destruct (extract_text_blocks doc None) as [|b0 bs] eqn:Eb.
  - exists "", [], []. split; [now apply generate_outline_from_pdf_empty|].
    tauto.
  - destruct (generate_outline_from_pdf_eq doc)
      as [body_size [hs [ti [secs [_ [Eh [_ E]]]]]]]; [rewrite Eb; discriminate|].
    do 3 eexists. split; [exact E|].
    split; [|discriminate]. intros Ht. exfalso.
    apply identify_and_classify_headings_eq in Eh. destruct Eh as [Et _].
    destruct ti as [t|]; [|discriminate].
    apply select_title_source in Et. destruct Et as [b [Hb [_ Etb]]].
    rewrite Etb in Ht.
    unfold extract_text_blocks in Hb. apply pages_fragments_spec in Hb. tauto.
Qed.

(** X14.  Every outline entry of the assembled result has level H1, H2 or
    H3 and repeats the text and page of a fragment of the stream: its text
    is non-empty without leading or trailing whitespace, and its page lies
    between 1 and the number of pages. *)
Theorem outline_entries_come_from_fragments :
  forall doc : Doc,
  exists (title : string) (outline : list OutlineEntry)
         (sections : list Section_),
    generate_outline_from_pdf (Opened doc)
    = Ok (OutlineResult title outline sections)
    /\ forall o : OutlineEntry,
         In o outline ->
         (o_level o = "H1" \/ o_level o = "H2" \/ o_level o = "H3")
         /\ (exists b, In b (extract_text_blocks doc None)
                       /\ text b = o_text o /\ page b = o_page o)
         /\ o_text o <> ""
         /\ strip (o_text o) = o_text o
         /\ (1 <= o_page o <= Z.of_nat (List.length doc))%Z.
Proof.
  intros doc.
  destruct (extract_text_blocks doc None) as [|b0 bs] eqn:Eb.
  - exists "", [], []. split; [now apply generate_outline_from_pdf_empty|].
    intros o [].
  - destruct (generate_outline_from_pdf_eq doc)
      as [body_size [hs [ti [secs [_ [Eh [_ E]]]]]]]; [rewrite Eb; discriminate|].
    do 3 eexists. split; [exact E|]. intros o Ho.
    apply in_map_iff in Ho. destruct Ho as [h [<- Hh]].
    cbn [o_level o_text o_page].
    apply identify_and_classify_headings_eq in Eh. destruct Eh as [_ ->].
    rewrite sorted_In, In_leveled in Hh. destruct Hh as [b [Hb [Hl Eh]]].
    apply In_collect_candidates in Hb. destruct Hb as [Hb _].
    assert (Hw := Hb). unfold extract_text_blocks in Hw.
    apply pages_fragments_spec in Hw. rewrite length_firstn in Hw.
    rewrite Eh. cbn [heading_of level h_text h_page].
    split; [now apply level_of_cases in Hl|].
    split; [exists b; rewrite <- Eb; auto|].
    split; [tauto|]. split; [tauto|]. lia.
Qed.

(* ================================================================= *)
(** ** The batch *)

Lemma str_length_app (s1 s2 : string) :
  String.length (s1 ++ s2) = (String.length s1 + String.length s2)%nat.
Proof. induction s1 as [|c s1 IH]; simpl; [reflexivity | now rewrite IH]. Qed.

Lemma str_app_inv_tail (s1 s2 t : string) : s1 ++ t = s2 ++ t -> s1 = s2.
Proof.
  revert s2; induction s1 as [|c s1 IH]; intros s2 H.
  - destruct s2 as [|d s2]; [reflexivity|]. exfalso.
    apply (f_equal String.length) in H. simpl in H.
    rewrite str_length_app in H. lia.
  - destruct s2 as [|d s2].
    + exfalso. apply (f_equal String.length) in H. simpl in H.
      rewrite str_length_app in H. lia.
    + simpl in H. injection H as -> H. f_equal. now apply IH.
Qed.

Lemma read_write_same (dir : list (string * string)) (name content : string) :
  read_text (write_text dir name content) name = Some content.
Proof.
  induction dir as [|[n c] dir IH]; simpl.
  - now rewrite String.eqb_refl.
  - destruct (n =? name)%string eqn:E; simpl; now rewrite E.
Qed.

Lemma read_write_other (dir : list (string * string))
  (name name' content : string) :
  name' <> name ->
  read_text (write_text dir name content) name' = read_text dir name'.
Proof.
  intros Hne. induction dir as [|[n c] dir IH]; simpl.
  - destruct (name =? name')%string eqn:E; [|reflexivity].
    apply String.eqb_eq in E. congruence.
  - destruct (n =? name)%string eqn:E; simpl.
    + apply String.eqb_eq in E. subst n.
      destruct (name =? name')%string eqn:E'; [|reflexivity].
      apply String.eqb_eq in E'. congruence.
    + now rewrite IH.
Qed.

Lemma generate_outline_from_pdf_total (opened : OpenResult) :
  exists result, generate_outline_from_pdf opened = Ok result.
Proof.
  destruct opened as [e|doc]; [eexists; reflexivity|].
  destruct (extract_text_blocks doc None) as [|b0 bs] eqn:Eb.
  - eexists. now apply generate_outline_from_pdf_empty.
  - destruct (generate_outline_from_pdf_eq doc)
      as [body_size [hs [ti [secs [_ [_ [_ E]]]]]]]; [rewrite Eb; discriminate|].
    eauto.
Qed.

Lemma process_files_spec (dumps : Outcome -> string)
  (pdf_files : list PdfFile) (dir : list (string * string)) :
  NoDup (map stem pdf_files) ->
  exists dir',
    process_files dumps dir pdf_files = Ok dir'
    /\ (forall f, In f pdf_files ->
          exists result,
            generate_outline_from_pdf (opens f) = Ok result
            /\ read_text dir' (stem f ++ ".json") = Some (dumps result))
    /\ (forall name,
          (forall f, In f pdf_files -> name <> stem f ++ ".json") ->
          read_text dir' name = read_text dir name).
Proof.
  revert dir; induction pdf_files as [|f fs IH]; intros dir Hnd.
  - exists dir. split; [reflexivity|]. split; [intros f []|reflexivity].
  - inversion Hnd as [|? ? Hf Hfs]; subst.
    destruct (generate_outline_from_pdf_total (opens f)) as [result Er].
    destruct (IH (write_text dir (stem f ++ ".json") (dumps result)) Hfs)
      as [dir' [Ep [Hin Hout]]].
    exists dir'. split; [cbn [process_files]; rewrite Er; exact Ep|]. split.
    + intros g [<-|Hg]; [|auto].
      exists result. split; [exact Er|].
      rewrite Hout; [apply read_write_same|].
      intros g Hg E. apply str_app_inv_tail in E.
      apply Hf. rewrite E. now apply in_map.
    + intros name Hname. rewrite Hout.
      * apply read_write_other. apply Hname. now left.
      * intros g Hg. apply Hname. now right.
Qed.

(** X15.  A batch over files of distinct stems never raises and leaves, for
    every file, an output named after its stem that holds the serialized
    result of that file, the error result included when the file does not
    open; outputs under other names are untouched. *)
Theorem batch_writes_one_output_per_file :
  forall (dumps : Outcome -> string) (dir : list (string * string))
         (pdf_files : list PdfFile),
    NoDup (map stem pdf_files) ->
    exists dir' : list (string * string),
      process_pdfs dumps dir pdf_files = Ok dir'
      /\ (forall f : PdfFile,
             In f pdf_files ->
             exists result : Outcome,
               generate_outline_from_pdf (opens f) = Ok result
               /\ read_text dir' (stem f ++ ".json") = Some (dumps result)
               /\ (forall e, opens f = OpenRaises e ->
                             result = ErrorResult ("Could not open PDF: " ++ e)))
      /\ (forall name : string,
             (forall f, In f pdf_files -> name <> stem f ++ ".json") ->
             read_text dir' name = read_text dir name).
Proof.
  intros dumps dir pdf_files Hnd.
  destruct (process_files_spec dumps pdf_files dir Hnd)
    as [dir' [Ep [Hin Hout]]].
  exists dir'. split; [destruct pdf_files; [exact Ep | exact Ep]|].
  split; [|exact Hout].
  intros f Hf. destruct (Hin f Hf) as [result [Er Hr]].
  exists result. split; [exact Er|]. split; [exact Hr|].
  intros e He. rewrite He in Er. cbv in Er. now injection Er as <-.
Qed.

Lemma batch_writes_one_output_per_file_witness :
  exists dir' : list (string * string),
    process_pdfs (fun _ => "{}") []
      [ {| stem := "a"; opens := OpenRaises "broken" |};
        {| stem := "b"; opens := Opened blank_first_page_doc |} ] = Ok dir'
    /\ (forall f : PdfFile,
           In f [ {| stem := "a"; opens := OpenRaises "broken" |};
                  {| stem := "b"; opens := Opened blank_first_page_doc |} ] ->
           exists result : Outcome,
             generate_outline_from_pdf (opens f) = Ok result
             /\ read_text dir' (stem f ++ ".json") = Some "{}"
             /\ (forall e, opens f = OpenRaises e ->
                           result = ErrorResult ("Could not open PDF: " ++ e)))
    /\ (forall name : string,
           (forall f,
               In f [ {| stem := "a"; opens := OpenRaises "broken" |};
                      {| stem := "b"; opens := Opened blank_first_page_doc |} ] ->
               name <> stem f ++ ".json") ->
           read_text dir' name = read_text [] name).
Proof.
  apply (batch_writes_one_output_per_file (fun _ => "{}") []
           [ {| stem := "a"; opens := OpenRaises "broken" |};
             {| stem := "b"; opens := Opened blank_first_page_doc |} ]).
  repeat constructor; simpl; intuition discriminate.
Defined.

(* ================================================================= *)
(** ** Display text and the body size *)

Lemma filter_idempotent {A : Type} (f : A -> bool) (l : list A) :
  filter f (filter f l) = filter f l.
Proof.
  apply filter_all. intros x Hx. apply filter_In in Hx. tauto.
Qed.

(** X16.  When some fragment is smaller than 20, the fragments of size 20
    or more have no influence on the body size: removing them gives the same
    result. *)
Theorem large_fragments_do_not_change_body_size :
  forall blocks : list Block,
    filter (fun b => Qlt_bool (font_size b) 20) blocks <> [] ->
    get_body_text_style blocks =
    get_body_text_style (filter (fun b => Qlt_bool (font_size b) 20) blocks).
Proof.
  intros blocks Hne.
  assert (Hs : body_sizes (filter (fun b => Qlt_bool (font_size b) 20) blocks)
               = body_sizes blocks).
  { unfold body_sizes. rewrite filter_idempotent.
    destruct (map font_size (filter _ blocks)) as [|x l] eqn:E; [|reflexivity].
    apply map_eq_nil in E. contradiction. }
  unfold get_body_text_style, get_body_text_style_with.
  destruct (filter (fun b => Qlt_bool (font_size b) 20) blocks) as [|s ss] eqn:Ef;
    [congruence|].
  destruct blocks as [|b bs]; [discriminate|].
  cbv zeta. now rewrite Hs.
Qed.

Lemma large_fragments_do_not_change_body_size_witness :
  get_body_text_style same_line_blocks =
  get_body_text_style
    (filter (fun b => Qlt_bool (font_size b) 20) same_line_blocks).
Proof.
  apply (large_fragments_do_not_change_body_size same_line_blocks).
  discriminate.
Defined.
